(** * gocryptfs: name transformation, DirIV cache and mount-time glue

    A shallow embedding of

      - package nametransform, [names_diriv.go]: [dirIVCache] with
        [lookup], [store] and [Clear], [ReadDirIV], [EncryptPathDirIV];
      - package nametransform, the padding code: [pad16], [unPad16];
      - package main: the exit codes, [loadConfig], the master-key section
        of [main] and the flag reconciliation of [initFuseFrontend],

    together with the properties of the specification that talk about them.

    Conventions.  Go's [int] is modelled by [Z]; every integer that occurs
    is a slice length or a byte value, far away from the 64-bit limits, so
    no wrap-around is written out.  A [[]byte] is a [list byte]; the nil
    slice and the empty slice are both [[]], and a slice is a value: the
    embedded code never writes to a slice it has handed out.  A Go
    [string] is a [string].  A call either returns, panics or terminates
    the process ([os.Exit]); this is the [outcome] type.  A Go result pair
    [(T, error)] is a pair [T * option error] where [None] is the nil
    error.  The embedding is sequential: locks are not modelled. *)

From Stdlib Require Import ZArith Lia Bool Strings.Ascii Strings.String Strings.Byte.
From Stdlib Require Import Numbers.DecimalString.
From stdpp Require Import base list strings gmap.

Open Scope Z_scope.

(** ** Outcomes of a call *)

Inductive outcome (A : Type) : Type :=
| Returned (a : A)
| Panicked (msg : string)
| Exited (code : Z).
Arguments Returned {A} a.
Arguments Panicked {A} msg.
Arguments Exited {A} code.

Definition obind {A B} (m : outcome A) (k : A -> outcome B) : outcome B :=
  match m with
  | Returned a => k a
  | Panicked msg => Panicked msg
  | Exited code => Exited code
  end.

Notation "'let!' x ':=' m 'in' k" := (obind m (fun x => k))
  (at level 10, x name, m at level 200, k at level 200, only parsing).

(** ** Go values *)

(** [error]: the values the embedded code creates or passes on. *)
Inductive error : Type :=
| errorString (s : string)                       (* errors.New, fmt.Errorf *)
| PathError (op path : string) (errno : Z).      (* *os.PathError          *)

Definition errors_New (s : string) : error := errorString s.

(** The line feed, written [\n] in the format strings of the source. *)
Definition newline : string := String (Ascii.ascii_of_nat 10) "".

(** [%d] of [fmt]. *)
Definition fmt_d (n : Z) : string := NilZero.string_of_int (Z.to_int n).

Definition len {A} (s : list A) : Z := Z.of_nat (length s).

(** [int(b)] for a byte [b]. *)
Definition int_of_byte (b : byte) : Z := Z.of_N (Byte.to_N b).

(** [byte(n)] for an int [n]: the low eight bits. *)
Definition byte_of_int (n : Z) : byte :=
  match Byte.of_N (Z.to_N (n mod 256)) with
  | Some b => b
  | None => x00
  end.

(** [s[i]]: a run-time panic when [i] is out of range. *)
Definition index (s : list byte) (i : Z) : outcome byte :=
  if (0 <=? i) && (i <? len s) then
    match s !! Z.to_nat i with
    | Some b => Returned b
    | None => Panicked "index out of range"
    end
  else Panicked "index out of range".

(** [s[i] = v]. *)
Definition index_set (s : list byte) (i : Z) (v : byte) : outcome (list byte) :=
  if (0 <=? i) && (i <? len s) then Returned (<[Z.to_nat i := v]> s)
  else Panicked "index out of range".

(** [s[lo:hi]] (capacity equals length for the slices that occur). *)
Definition slice (s : list byte) (lo hi : Z) : outcome (list byte) :=
  if (0 <=? lo) && (lo <=? hi) && (hi <=? len s) then
    Returned (take (Z.to_nat (hi - lo)) (drop (Z.to_nat lo) s))
  else Panicked "slice bounds out of range".

(** [make([]byte, n)]. *)
Definition make (n : Z) : outcome (list byte) :=
  if 0 <=? n then Returned (replicate (Z.to_nat n) x00)
  else Panicked "makeslice: len out of range".

(** [copy(dst, src)]: the first [min(len(dst), len(src))] elements. *)
Definition copy (dst src : list byte) : list byte :=
  take (length dst) src ++ drop (length src) dst.

(** ** Go's standard library: [strings] and [path/filepath] (Unix)

    These functions are not part of the repository; they are written after
    the documentation of the Go packages and checked on its examples
    below. *)

Definition is_slash (c : ascii) : bool := Ascii.eqb c "/".

(** [strings.Split(s, string(sep))] for a one-byte separator. *)
Fixpoint strings_Split (s : string) (sep : ascii) : list string :=
  match s with
  | EmptyString => [EmptyString]
  | String c s' =>
      if Ascii.eqb c sep then EmptyString :: strings_Split s' sep
      else match strings_Split s' sep with
           | x :: xs => String c x :: xs
           | [] => [String c EmptyString]
           end
  end.

(** [strings.Join(elems, sep)]. *)
Fixpoint strings_Join (elems : list string) (sep : string) : string :=
  match elems with
  | [] => ""
  | [x] => x
  | x :: xs => x +:+ sep +:+ strings_Join xs sep
  end.

(** One element of the path in [filepath.Clean]; [kept] holds the elements
    retained so far, the most recent one first. *)
Definition clean_step (rooted : bool) (kept : list string) (e : string)
    : list string :=
  if String.eqb e "" || String.eqb e "." then kept
  else if String.eqb e ".." then
    match kept with
    | top :: rest => if String.eqb top ".." then e :: kept else rest
    | [] => if rooted then [] else [e]
    end
  else e :: kept.

Definition is_rooted (path : string) : bool :=
  match path with
  | String c _ => is_slash c
  | EmptyString => false
  end.

(** [filepath.Clean(path)]: drop empty and [.] elements, resolve [..]
    against the element before it, keep a leading slash; the empty result
    is [.]. *)
Definition filepath_Clean (path : string) : string :=
  let rooted := is_rooted path in
  let kept := fold_left (clean_step rooted) (strings_Split path "/") [] in
  let out := (if rooted then "/" else "") +:+ strings_Join (rev kept) "/" in
  if String.eqb out "" then "." else out.

(** [filepath.Dir(path)]: [Clean] of the path up to and including its last
    slash. *)
Definition filepath_Dir (path : string) : string :=
  let init := removelast (strings_Split path "/") in
  filepath_Clean
    match init with
    | [] => ""
    | _ :: _ => strings_Join init "/" +:+ "/"
    end.

(** The loop of [filepath.Base] that strips the trailing slashes. *)
Fixpoint strip_trailing_slashes (path : string) : string :=
  match path with
  | EmptyString => EmptyString
  | String c rest =>
      let rest' := strip_trailing_slashes rest in
      if String.eqb rest' "" && is_slash c then EmptyString
      else String c rest'
  end.

(** [filepath.Base(path)]. *)
Definition filepath_Base (path : string) : string :=
  if String.eqb path "" then "."
  else
    let path := strip_trailing_slashes path in
    let path := List.last (strings_Split path "/") "" in
    if String.eqb path "" then "/" else path.

(** [filepath.Join(elem...)]: leading empty elements are skipped, the rest
    is joined with slashes and cleaned. *)
Fixpoint filepath_Join (elem : list string) : string :=
  match elem with
  | [] => ""
  | e :: rest =>
      if String.eqb e "" then filepath_Join rest
      else filepath_Clean (strings_Join elem "/")
  end.

(** [syscall.ENOENT]. *)
Definition ENOENT : Z := 2.

(** [os.IsNotExist(err)]. *)
Definition os_IsNotExist (err : option error) : bool :=
  match err with
  | Some (PathError _ _ errno) => errno =? ENOENT
  | Some (errorString s) => String.eqb s "file does not exist"
  | None => false
  end.

(** ** Package nametransform *)

Module nametransform.

(** *** pad16.go *)

Definition aes_BlockSize : Z := 16.

(** The loop [for i := oldLen; i < newLen; i++ { padded[i] = padByte }];
    [fuel] is the number of iterations left, [newLen - i]. *)
Fixpoint pad16_fill (fuel : nat) (padded : list byte) (padByte : byte)
    (i newLen : Z) : outcome (list byte) :=
  match fuel with
  | O => Returned padded
  | S fuel' =>
      if i <? newLen then
        let! padded' := index_set padded i padByte in
        pad16_fill fuel' padded' padByte (i + 1) newLen
      else Returned padded
  end.

(** pad16 - pad data to AES block size (=16 byte) using standard PKCS#7
    padding. *)
Definition pad16 (orig : list byte) : outcome (list byte) :=
  let oldLen := len orig in
  if oldLen =? 0 then Panicked "Padding zero-length string makes no sense"
  else
    let padLen := aes_BlockSize - Z.rem oldLen aes_BlockSize in
    let padLen := if padLen =? 0 then aes_BlockSize else padLen in
    let newLen := oldLen + padLen in
    let! padded := make newLen in
    let padded := copy padded orig in
    let padByte := byte_of_int padLen in
    pad16_fill (Z.to_nat (newLen - oldLen)) padded padByte oldLen newLen.

(** The loop
    [for i := oldLen - padLen; i < oldLen; i++ { if padded[i] != padByte {...} }];
    the result is the error of the early return, if any. *)
Fixpoint unPad16_check (fuel : nat) (padded : list byte) (padByte : byte)
    (i oldLen : Z) : outcome (option error) :=
  match fuel with
  | O => Returned None
  | S fuel' =>
      if i <? oldLen then
        let! b := index padded i in
        if negb (Byte.eqb b padByte) then
          Returned (Some (errorString
            ("Padding byte at i=" +:+ fmt_d i +:+ " is invalid")))
        else unPad16_check fuel' padded padByte (i + 1) oldLen
      else Returned None
  end.

(** unPad16 - remove padding *)
Definition unPad16 (padded : list byte) : outcome (list byte * option error) :=
  let oldLen := len padded in
  if negb (Z.rem oldLen aes_BlockSize =? 0) then
    Returned ([], Some (errors_New "Unaligned size"))
  else
    (* The last byte is always a padding byte *)
    let! padByte := index padded (oldLen - 1) in
    (* The padding byte's value is the padding length *)
    let padLen := int_of_byte padByte in
    (* Padding must be at least 1 byte *)
    if padLen <=? 0 then
      Returned ([], Some (errors_New "Padding cannot be zero-length"))
    (* Larger paddings make no sense *)
    else if padLen >? aes_BlockSize then
      Returned ([], Some (errorString
        ("Padding too long, padLen = " +:+ fmt_d padLen +:+ " > 16")))
    else
      (* All padding bytes must be identical *)
      let! bad := unPad16_check (Z.to_nat (oldLen - (oldLen - padLen)))
                padded padByte (oldLen - padLen) oldLen in
      match bad with
      | Some e => Returned ([], Some e)
      | None =>
          let newLen := oldLen - padLen in
          (* Padding an empty string makes no sense *)
          if newLen =? 0 then
            Returned ([], Some (errors_New "Unpadded length is zero"))
          else
            let! r := slice padded 0 newLen in
            Returned (r, None)
      end.


(** *** names_diriv.go *)

(** identical to AES block size *)
Definition dirIVLen : Z := 16.
(** dirIV is stored in this file. *)
Definition DirIVFilename : string := "gocryptfs.diriv".

(** A simple one-entry DirIV cache.  The [lock] field is left out: the
    embedding is sequential, every method runs from [Lock] to [Unlock]
    without interleaving. *)
Record dirIVCache : Type := mk_dirIVCache {
  cleared : bool;              (* Invalidated? *)
  iv : list byte;              (* The DirIV *)
  dir : string;                (* Directory the DirIV belongs to *)
  translatedDir : string       (* Ecrypted version of "dir" *)
}.

(** The zero value of the struct: the state of a cache that was declared
    and never written (the struct has no constructor). *)
Definition dirIVCache_zero : dirIVCache :=
  {| cleared := false; iv := []; dir := ""; translatedDir := "" |}.

(** lookup - fetch entry for "dir" from the cache *)
Definition lookup (c : dirIVCache) (dir' : string)
    : bool * list byte * string :=
  if negb (cleared c) && String.eqb (dir c) dir' then
    (true, iv c, translatedDir c)
  else (false, [], "").

(** store - write entry for "dir" into the caches *)
Definition store (c : dirIVCache) (dir' : string) (iv' : list byte)
    (translatedDir' : string) : dirIVCache :=
  {| cleared := false; iv := iv'; dir := dir';
     translatedDir := translatedDir' |}.

Definition Clear (c : dirIVCache) : dirIVCache :=
  {| cleared := true; iv := iv c; dir := dir c;
     translatedDir := translatedDir c |}.

(** What the methods of [NameTransform] see of the operating system: the
    backing file system, which they only read, and the warning logger. *)
Record OS : Type := mk_OS {
  (* ioutil.ReadFile *)
  ReadFile : string -> list byte * option error;
  (* the error of os.Stat *)
  Stat : string -> option error;
  (* toggledlog.Warn.PanicAfter, set by -wpanic: a warning panics *)
  Warn_PanicAfter : bool
}.

(** Calls that leave the process, in program order.  A log call is
    recorded with its format string. *)
Inductive event : Type :=
| EvReadFile (name : string)
| EvStat (name : string)
| EvDebug (format : string)
| EvWarn (format : string).

(** The mutable state: the [DirIVCache] field of the receiver and the
    calls made so far (most recent last). *)
Record World : Type := mk_World {
  DirIVCache : dirIVCache;
  trace : list event
}.

Definition M (A : Type) : Type := World -> outcome A * World.

Definition ret {A} (a : A) : M A := fun w => (Returned a, w).

Definition bind {A B} (m : M A) (k : A -> M B) : M B :=
  fun w =>
    match m w with
    | (Returned a, w') => k a w'
    | (Panicked msg, w') => (Panicked msg, w')
    | (Exited code, w') => (Exited code, w')
    end.

Notation "'do!' x ':=' m 'in' k" := (bind m (fun x => k))
  (at level 10, x name, m at level 200, k at level 200, only parsing).
Notation "'do!' ' p ':=' m 'in' k" :=
  (bind m (fun x => match x with p => k end))
  (at level 10, p strict pattern, m at level 200, k at level 200,
   only parsing).

Definition lift {A} (o : outcome A) : M A := fun w => (o, w).

Definition emit (e : event) : M unit :=
  fun w => (Returned tt,
            {| DirIVCache := DirIVCache w; trace := trace w ++ [e] |}).

Definition get_DirIVCache : M dirIVCache :=
  fun w => (Returned (DirIVCache w), w).

Definition set_DirIVCache (c : dirIVCache) : M unit :=
  fun w => (Returned tt, {| DirIVCache := c; trace := trace w |}).

(** Modelled from the spec: package toggledlog is not under src/.
    [toggledlog.Debug.Printf] only logs. *)
Definition Debug_Printf (format : string) : M unit :=
  emit (EvDebug format).

(** Modelled from the spec: package toggledlog is not under src/.
    [toggledlog.Warn.Printf] logs, and the warning is promoted to a panic
    when the wpanic switch is set. *)
Definition Warn_Printf (os : OS) (format : string) : M unit :=
  do! _ := emit (EvWarn format) in
  if Warn_PanicAfter os then lift (Panicked ("PanicAfter: " +:+ format))
  else ret tt.

(** The part of the receiver that stays fixed during a mount.  The method
    [encryptName] lives in names.go, which is not under src/; it is taken
    as it is called: a plaintext name and an IV give a ciphertext name,
    unless the call panics (as [pad16] does on the empty name). *)
Record NameTransform : Type := mk_NameTransform {
  encryptName : string -> list byte -> outcome string
}.

(** readDirIV - read the "gocryptfs.diriv" file from "dir" (absolute
    ciphertext path) *)
Definition ReadDirIV (os : OS) (dir' : string)
    : M (list byte * option error) :=
  let ivfile := filepath_Join [dir'; DirIVFilename] in
  do! _ := Debug_Printf ("ReadDirIV: reading %s" +:+ newline) in
  do! _ := emit (EvReadFile ivfile) in
  let '(iv', readErr) := ReadFile os ivfile in
  match readErr with
  | Some e =>
      (* The directory may have been concurrently deleted or moved. *)
      do! _ := emit (EvStat dir') in
      let statErr := Stat os dir' in
      do! _ :=
        if os_IsNotExist statErr then
          Debug_Printf "ReadDirIV: Dir %s was deleted under our feet"
        else
          (* This should not happen *)
          Warn_Printf os ("ReadDirIV: Dir exists but diriv does not: %v" +:+ newline) in
      ret ([], Some e)
  | None =>
      if negb (len iv' =? dirIVLen) then
        ret ([], Some (errorString
          ("ReadDirIV: Invalid length " +:+ fmt_d (len iv') +:+ newline)))
      else ret (iv', None)
  end.

(** The state of the loop that walks the directory tree in
    [EncryptPathDirIV]: [wd], [encryptedNames] and [iv]. *)
Definition walk_state : Type := (string * list string * list byte)%type.

(** The loop [for _, plainName := range plainNames { ... }]; [inl] is the
    error of the early return. *)
Fixpoint walk (be : NameTransform) (os : OS) (plainNames : list string)
    (st : walk_state) : M (error + walk_state) :=
  match plainNames with
  | [] => ret (inr st)
  | plainName :: rest =>
      let '(wd, encryptedNames, _) := st in
      do! '(iv', err) := ReadDirIV os wd in
      match err with
      | Some e => ret (inl e)
      | None =>
          do! encryptedName := lift (encryptName be plainName iv') in
          walk be os rest
            (filepath_Join [wd; encryptedName],
             encryptedNames ++ [encryptedName], iv')
      end
  end.

(** EncryptPathDirIV - encrypt path using EME with DirIV *)
Definition EncryptPathDirIV (be : NameTransform) (os : OS)
    (plainPath rootDir : string) : M (string * option error) :=
  (* Empty string means root directory *)
  if String.eqb plainPath "" then ret (plainPath, None)
  else
    (* Check if the DirIV is cached *)
    let parentDir := filepath_Dir plainPath in
    do! c := get_DirIVCache in
    let '(found, iv', cParentDir) := lookup c parentDir in
    if found then
      let baseName := filepath_Base plainPath in
      do! cBaseName := lift (encryptName be baseName iv') in
      let cipherPath := cParentDir +:+ "/" +:+ cBaseName in
      ret (cipherPath, None)
    else
      (* Walk the directory tree *)
      let plainNames := strings_Split plainPath "/" in
      do! r := walk be os plainNames (rootDir, [], iv') in
      match r with
      | inl err => ret ("", Some err)
      | inr (_, encryptedNames, iv'') =>
          (* Cache the final DirIV *)
          let cipherPath := strings_Join encryptedNames "/" in
          let cParentDir := filepath_Dir cipherPath in
          do! c' := get_DirIVCache in
          do! _ := set_DirIVCache (store c' parentDir iv'' cParentDir) in
          ret (cipherPath, None)
      end.

(** *** names_diriv.go: the functions that decrypt and write *)

(** The method [DecryptName] of the receiver lives in names.go, which is
    not under src/; it is taken as it is called: a ciphertext name and an
    IV give a plaintext name or an error, unless the call panics. *)
Record NameDecrypter : Type := mk_NameDecrypter {
  DecryptName : string -> list byte -> outcome (string * option error)
}.

(** The state of the loop of [DecryptPathDirIV]: [wd] and [plainNames]. *)
Definition dwalk_state : Type := (string * list string)%type.

(** The loop [for _, encryptedName := range encryptedNames { ... }];
    [inl] is the error of an early return. *)
Fixpoint dwalk (de : NameDecrypter) (os : OS) (encryptedNames : list string)
    (st : dwalk_state) : M (error + dwalk_state) :=
  match encryptedNames with
  | [] => ret (inr st)
  | encryptedName :: rest =>
      let '(wd, plainNames) := st in
      do! '(iv', err) := ReadDirIV os wd in
      match err with
      | Some e => ret (inl e)
      | None =>
          do! '(plainName, err') := lift (DecryptName de encryptedName iv') in
          match err' with
          | Some e => ret (inl e)
          | None =>
              dwalk de os rest
                (filepath_Join [wd; encryptedName],
                 plainNames ++ [plainName])
          end
      end
  end.

(** DecryptPathDirIV - decrypt path using EME with DirIV *)
Definition DecryptPathDirIV (de : NameDecrypter) (os : OS)
    (encryptedPath rootDir : string) (eme : bool)
    : M (string * option error) :=
  let encryptedNames := strings_Split encryptedPath "/" in
  do! _ := Debug_Printf ("DecryptPathDirIV: decrypting %v" +:+ newline) in
  do! r := dwalk de os encryptedNames (rootDir, []) in
  match r with
  | inl err => ret ("", Some err)
  | inr (_, plainNames) => ret (filepath_Join plainNames, None)
  end.

(** A file system that can be written: its states, what the reading
    methods see of a state, and [ioutil.WriteFile(filename, data, perm)],
    which gives an error and the next state. *)
Record FileSystem : Type := mk_FileSystem {
  fs_state : Type;
  fs_os : fs_state -> OS;
  fs_WriteFile :
    string -> list byte -> Z -> fs_state -> option error * fs_state
}.

(** The permissions 0444. *)
Definition perm_0444 : Z := 292.

(** WriteDirIV - create diriv file inside "dir" (absolute ciphertext path).
    [cryptocore.RandBytes] is not under src/ and is taken as it is called:
    a length gives a slice, unless the call panics. *)
Definition WriteDirIV (fs : FileSystem) (RandBytes : Z -> outcome (list byte))
    (dir' : string) (s : fs_state fs) : outcome (option error) * fs_state fs :=
  match RandBytes dirIVLen with
  | Returned iv' =>
      let file := filepath_Join [dir'; DirIVFilename] in
      (* 0444 permissions: the file is not secret but should not be
         written to *)
      let '(err, s') := fs_WriteFile fs file iv' perm_0444 s in
      (Returned err, s')
  | Panicked msg => (Panicked msg, s)
  | Exited code => (Exited code, s)
  end.

End nametransform.

(** ** Package main *)

Module main.

(** Exit codes *)
Definition ERREXIT_USAGE : Z := 1.
Definition ERREXIT_MOUNT : Z := 3.
Definition ERREXIT_CIPHERDIR : Z := 6.
Definition ERREXIT_INIT : Z := 7.
Definition ERREXIT_LOADCONF : Z := 8.
Definition ERREXIT_PASSWORD : Z := 9.
Definition ERREXIT_MOUNTPOINT : Z := 10.

Record argContainer : Type := mk_argContainer {
  debug : bool; init : bool; zerokey : bool; fusedebug : bool;
  openssl : bool; passwd : bool; foreground : bool; version : bool;
  plaintextnames : bool; quiet : bool; diriv : bool; emenames : bool;
  gcmiv128 : bool; nosyslog : bool; wpanic : bool;
  masterkey : string; mountpoint : string; cipherdir : string;
  cpuprofile : string; config : string; extpass : string;
  memprofile : string;
  notifypid : Z; scryptn : Z
}.

(** The feature flags of package configfile. *)
Inductive featureFlag : Type :=
| FlagPlaintextNames | FlagDirIV | FlagEMENames | FlagGCMIV128.

(** [*configfile.ConfFile], as far as [main] uses it: the method
    [IsFeatureFlagSet].  Package configfile is not under src/. *)
Record ConfFile : Type := mk_ConfFile {
  IsFeatureFlagSet : featureFlag -> bool
}.

(** [fusefrontend.Args], with the fields the composite literal in
    [initFuseFrontend] sets. *)
Record Args : Type := mk_Args {
  Cipherdir : string;
  Masterkey : list byte;
  OpenSSL : bool;
  PlaintextNames : bool;
  DirIV : bool;
  EMENames : bool;
  GCMIV128 : bool
}.

(** initFuseFrontend, up to the call of [fusefrontend.NewFS]: reconciliate
    CLI and config file arguments into an [Args] struct that is passed to
    the filesystem implementation.  [confFile] is [None] (nil) when
    "-zerokey" or "-masterkey" was used. *)
Definition initFuseFrontend_frontendArgs (key : list byte)
    (args : argContainer) (confFile : option ConfFile) : Args :=
  let frontendArgs :=
    {| Cipherdir := cipherdir args;
       Masterkey := key;
       OpenSSL := openssl args;
       PlaintextNames := plaintextnames args;
       DirIV := diriv args;
       EMENames := emenames args;
       GCMIV128 := gcmiv128 args |} in
  let frontendArgs :=
    match confFile with
    | Some cf =>
        (* Settings from the config file override command line args *)
        {| Cipherdir := Cipherdir frontendArgs;
           Masterkey := Masterkey frontendArgs;
           OpenSSL := OpenSSL frontendArgs;
           PlaintextNames := IsFeatureFlagSet cf FlagPlaintextNames;
           DirIV := IsFeatureFlagSet cf FlagDirIV;
           EMENames := IsFeatureFlagSet cf FlagEMENames;
           GCMIV128 := IsFeatureFlagSet cf FlagGCMIV128 |}
    | None => frontendArgs
    end in
  (* EMENames implies DirIV, both on the command line and in the config
     file. *)
  let frontendArgs :=
    if EMENames frontendArgs then
      {| Cipherdir := Cipherdir frontendArgs;
         Masterkey := Masterkey frontendArgs;
         OpenSSL := OpenSSL frontendArgs;
         PlaintextNames := PlaintextNames frontendArgs;
         DirIV := true;
         EMENames := EMENames frontendArgs;
         GCMIV128 := GCMIV128 frontendArgs |}
    else frontendArgs in
  (* PlainTexnames disables both EMENames and DirIV *)
  if PlaintextNames frontendArgs then
    {| Cipherdir := Cipherdir frontendArgs;
       Masterkey := Masterkey frontendArgs;
       OpenSSL := OpenSSL frontendArgs;
       PlaintextNames := PlaintextNames frontendArgs;
       DirIV := false;
       EMENames := false;
       GCMIV128 := GCMIV128 frontendArgs |}
  else frontendArgs.

(** What [main] sees of its surroundings when it fetches the master key.
    [readPassword], [parseMasterKey] and [configfile.LoadConfFile] are not
    under src/ and are taken as they are called; the first two may
    terminate the process themselves. *)
Record Sys : Type := mk_Sys {
  (* the error of os.Stat *)
  os_Stat : string -> option error;
  readPassword : string -> outcome string;
  parseMasterKey : string -> outcome (list byte);
  LoadConfFile : string -> string -> list byte * option ConfFile * option error;
  (* escape sequences for terminal colors, set by setupColors *)
  colorRed : string;
  colorReset : string
}.

(** What the process writes: standard output and the info log.  A call of
    the info logger is recorded whether or not the logger is enabled
    ("-q" disables it). *)
Inductive output : Type :=
| Stdout (s : string)              (* fmt.Printf, fmt.Println of a string *)
| StdoutErr (e : error)            (* fmt.Println(err) *)
| LogInfo (s : string)             (* toggledlog.Info.Printf *)
| MasterKeyHelp (key : list byte). (* printMasterKey *)

(** A run: what was written, and how the call ended. *)
Definition run (A : Type) : Type := (list output * outcome A)%type.

(** loadConfig - load the config file "filename", prompting the user for
    the password.  The warning logger is switched off around
    [LoadConfFile]; this only silences messages and is not recorded. *)
Definition loadConfig (sys : Sys) (args : argContainer)
    : run (list byte * option ConfFile) :=
  (* Check if the file exists at all before prompting for a password *)
  match os_Stat sys (config args) with
  | Some err => ([StdoutErr err], Exited ERREXIT_LOADCONF)
  | None =>
      let out :=
        if String.eqb (extpass args) "" then [Stdout "Password: "] else [] in
      match readPassword sys (extpass args) with
      | Returned pw =>
          let out := out ++ [LogInfo "Decrypting master key... "] in
          let '(masterkey', confFile, err) :=
            LoadConfFile sys (config args) pw in
          match err with
          | Some e =>
              (out ++ [StdoutErr e;
                       Stdout (colorRed sys +:+ "Wrong password." +:+
                               colorReset sys)],
               Exited ERREXIT_LOADCONF)
          | None =>
              (out ++ [LogInfo "done."], Returned (masterkey', confFile))
          end
      | Panicked msg => (out, Panicked msg)
      | Exited code => (out, Exited code)
      end
  end.

(** [cryptocore.KeyLen]: the master key has 32 bytes. *)
Definition cryptocore_KeyLen : Z := 32.

(** The double quote character. *)
Definition dquote : string := String (Ascii.ascii_of_nat 34) "".

(** The section "Get master key" of [main], on the mount path. *)
Definition main_getMasterKey (sys : Sys) (args : argContainer)
    : run (list byte * option ConfFile) :=
  if negb (String.eqb (masterkey args) "") then
    (* "-masterkey" *)
    let out := [LogInfo "Using explicit master key."] in
    match parseMasterKey sys (masterkey args) with
    | Returned key =>
        (out ++ [LogInfo ("THE MASTER KEY IS VISIBLE VIA " +:+ dquote +:+
                          "ps -auxwww" +:+ dquote +:+
                          ", ONLY USE THIS MODE FOR EMERGENCIES.")],
         Returned (key, None))
    | Panicked msg => (out, Panicked msg)
    | Exited code => (out, Exited code)
    end
  else if zerokey args then
    (* "-zerokey" *)
    ([LogInfo "Using all-zero dummy master key.";
      LogInfo ("ZEROKEY MODE PROVIDES NO SECURITY AT ALL AND SHOULD ONLY " +:+
               "BE USED FOR TESTING.")],
     Returned (replicate (Z.to_nat cryptocore_KeyLen) x00, None))
  else
    (* Load master key from config file *)
    match loadConfig sys args with
    | (out, Returned (key, confFile)) =>
        (out ++ [MasterKeyHelp key], Returned (key, confFile))
    | other => other
    end.

(** *** The rest of main.go: initDir, changePassword, main *)

(** What the rest of [main] sees of its surroundings, beyond [Sys].  The
    helpers of package main and the functions of the other packages are
    not under src/ and are taken as they are called. *)
Record Env : Type := mk_Env {
  sys : Sys;
  (* escape sequences for terminal colors, set by setupColors *)
  colorGrey : string;
  colorGreen : string;
  (* helpers of package main *)
  checkDir : string -> option error;
  checkDirEmpty : string -> option error;
  readPasswordTwice : string -> outcome string;
  forkChild : outcome unit;
  (* configfile.CreateConfFile(filename, password, plaintextNames, logN) *)
  CreateConfFile : string -> string -> bool -> Z -> option error;
  (* confFile.ScryptObject.LogN(), confFile.EncryptKey(key, password, logN)
     and confFile.WriteFile() *)
  ConfFile_LogN : ConfFile -> Z;
  ConfFile_EncryptKey : ConfFile -> list byte -> string -> Z -> ConfFile;
  ConfFile_WriteFile : ConfFile -> option error;
  (* nametransform.WriteDirIV(dir), as a call from main *)
  call_WriteDirIV : string -> outcome (option error);
  (* filepath.Abs and the error of os.Create *)
  filepath_Abs : string -> string * option error;
  os_Create : string -> option error;
  (* the error of fuse.NewServer, that is, of mounting *)
  fuse_NewServer : Args -> string -> option error;
  (* srv.Serve(): returns on unmount *)
  srv_Serve : outcome unit
}.

(** [configfile.ConfDefaultName]. *)
Definition ConfDefaultName : string := "gocryptfs.conf".

(** What the process does, in program order: what it writes, and the
    calls that change something outside.  A log call is recorded with its
    format string, whether or not the logger is enabled. *)
Inductive action : Type :=
| Out (o : output)
| Printf_err (format : string) (e : error)  (* fmt.Printf(format, err) *)
| LogDebug (format : string)                (* toggledlog.Debug.Printf *)
| UsageText                                 (* usageText() *)
| VersionText                               (* printVersion() *)
| CallCreateConfFile (filename password : string) (plaintextNames : bool)
    (logN : Z)
| CallWriteDirIV (dir' : string)
| CallEncryptKey (password : string) (logN : Z)
| CallWriteFile
| CallStartCPUProfile (file : string)
| CallStopCPUProfile
| CallWriteHeapProfile (file : string)
| CallNewServer (frontendArgs : Args) (mountpoint' : string)
| CallSendUsr1 (pid : Z)
| CallSwitchToSyslog
| CallHandleSigint
| CallServe.

Definition R (A : Type) : Type := (list action * outcome A)%type.

Definition rret {A} (a : A) : R A := ([], Returned a).

Definition rbind {A B} (m : R A) (k : A -> R B) : R B :=
  match m with
  | (t, Returned a) => let '(t', o) := k a in (t ++ t', o)
  | (t, Panicked msg) => (t, Panicked msg)
  | (t, Exited code) => (t, Exited code)
  end.

Notation "'run!' x ':=' m 'in' k" := (rbind m (fun x => k))
  (at level 10, x name, m at level 200, k at level 200, only parsing).
Notation "'run!' ' p ':=' m 'in' k" :=
  (rbind m (fun x => match x with p => k end))
  (at level 10, p strict pattern, m at level 200, k at level 200,
   only parsing).

Definition act (a : action) : R unit := ([a], Returned tt).

Definition os_Exit {A} (code : Z) : R A := ([], Exited code).

Definition call {A} (o : outcome A) : R A := ([], o).

Definition of_run {A} (r : run A) : R A := (map Out (fst r), snd r).

Definition when (b : bool) (m : R unit) : R unit :=
  if b then m else rret tt.

(** Assignments to the fields of [args] that [main] changes. *)
Definition with_cipherdir (args : argContainer) (v : string) : argContainer :=
  {| debug := debug args; init := init args; zerokey := zerokey args;
     fusedebug := fusedebug args; openssl := openssl args;
     passwd := passwd args; foreground := foreground args;
     version := version args; plaintextnames := plaintextnames args;
     quiet := quiet args; diriv := diriv args; emenames := emenames args;
     gcmiv128 := gcmiv128 args; nosyslog := nosyslog args;
     wpanic := wpanic args; masterkey := masterkey args;
     mountpoint := mountpoint args; cipherdir := v;
     cpuprofile := cpuprofile args; config := config args;
     extpass := extpass args; memprofile := memprofile args;
     notifypid := notifypid args; scryptn := scryptn args |}.

Definition with_config (args : argContainer) (v : string) : argContainer :=
  {| debug := debug args; init := init args; zerokey := zerokey args;
     fusedebug := fusedebug args; openssl := openssl args;
     passwd := passwd args; foreground := foreground args;
     version := version args; plaintextnames := plaintextnames args;
     quiet := quiet args; diriv := diriv args; emenames := emenames args;
     gcmiv128 := gcmiv128 args; nosyslog := nosyslog args;
     wpanic := wpanic args; masterkey := masterkey args;
     mountpoint := mountpoint args; cipherdir := cipherdir args;
     cpuprofile := cpuprofile args; config := v;
     extpass := extpass args; memprofile := memprofile args;
     notifypid := notifypid args; scryptn := scryptn args |}.

Definition with_mountpoint (args : argContainer) (v : string)
    : argContainer :=
  {| debug := debug args; init := init args; zerokey := zerokey args;
     fusedebug := fusedebug args; openssl := openssl args;
     passwd := passwd args; foreground := foreground args;
     version := version args; plaintextnames := plaintextnames args;
     quiet := quiet args; diriv := diriv args; emenames := emenames args;
     gcmiv128 := gcmiv128 args; nosyslog := nosyslog args;
     wpanic := wpanic args; masterkey := masterkey args;
     mountpoint := v; cipherdir := cipherdir args;
     cpuprofile := cpuprofile args; config := config args;
     extpass := extpass args; memprofile := memprofile args;
     notifypid := notifypid args; scryptn := scryptn args |}.

(** initDir: create the config file and, with DirIV, the diriv file of the
    root directory; the function ends in [os.Exit]. *)
Definition initDir (env : Env) (args : argContainer) : R unit :=
  match checkDirEmpty env (cipherdir args) with
  | Some err =>
      run! _ := act (Printf_err ("Invalid cipherdir: %v" +:+ newline) err) in
      os_Exit ERREXIT_INIT
  | None =>
      (* Create gocryptfs.conf *)
      run! _ := act (Out (LogInfo
                  "Choose a password for protecting your files.")) in
      run! password := call (readPasswordTwice env (extpass args)) in
      run! _ := act (CallCreateConfFile (config args) password
                       (plaintextnames args) (scryptn args)) in
      match CreateConfFile env (config args) password (plaintextnames args)
              (scryptn args) with
      | Some err =>
          run! _ := act (Out (StdoutErr err)) in os_Exit ERREXIT_INIT
      | None =>
          run! _ :=
            if diriv args && negb (plaintextnames args) then
              (* Create gocryptfs.diriv in the root dir *)
              run! _ := act (CallWriteDirIV (cipherdir args)) in
              run! err := call (call_WriteDirIV env (cipherdir args)) in
              match err with
              | Some e =>
                  run! _ := act (Out (StdoutErr e)) in os_Exit ERREXIT_INIT
              | None => rret tt
              end
            else rret tt in
          run! _ := act (Out (LogInfo
                      (colorGreen env +:+
                       "The filesystem has been created successfully." +:+
                       colorReset (sys env)))) in
          run! _ := act (Out (LogInfo
                      (colorGrey env +:+
                       "You can now mount it using: %s %s MOUNTPOINT" +:+
                       colorReset (sys env)))) in
          os_Exit 0
      end
  end.

(** changePassword - change the password of config file "filename"; the
    function ends in [os.Exit].  A nil [confFile] makes the method call
    panic. *)
Definition changePassword (env : Env) (args : argContainer) : R unit :=
  run! '(masterkey', confFile) := of_run (loadConfig (sys env) args) in
  run! _ := act (Out (Stdout "Please enter your new password.")) in
  run! newPw := call (readPasswordTwice env (extpass args)) in
  match confFile with
  | None => call (Panicked "invalid memory address or nil pointer dereference")
  | Some cf =>
      let logN := ConfFile_LogN env cf in
      run! _ := act (CallEncryptKey newPw logN) in
      let cf' := ConfFile_EncryptKey env cf masterkey' newPw logN in
      run! _ := act CallWriteFile in
      match ConfFile_WriteFile env cf' with
      | Some err =>
          run! _ := act (Out (StdoutErr err)) in os_Exit ERREXIT_INIT
      | None =>
          run! _ := act (Out (LogInfo "Password changed.")) in os_Exit 0
      end
  end.

(** initFuseFrontend - initialize gocryptfs/fusefrontend.  Calls os.Exit
    on errors.  The server it returns is not modelled. *)
Definition initFuseFrontend (env : Env) (key : list byte)
    (args : argContainer) (confFile : option ConfFile) : R unit :=
  let frontendArgs := initFuseFrontend_frontendArgs key args confFile in
  run! _ := act (LogDebug "frontendArgs: %s") in
  run! _ := act (CallNewServer frontendArgs (mountpoint args)) in
  match fuse_NewServer env frontendArgs (mountpoint args) with
  | Some err =>
      run! _ := act (Printf_err "Mount failed: %v" err) in
      os_Exit ERREXIT_MOUNT
  | None => rret tt
  end.

(** [main], from the parsed command line on: [args] holds the flags and
    [positional] the remaining arguments ([flagSet.NArg()] and
    [flagSet.Arg(i)]).  The function is cut in two where its deferred
    calls are in place.  First part: up to and including the blocks of
    "-cpuprofile" and "-memprofile"; it gives [args] with [cipherdir] and
    [config] filled in. *)
Definition main_setup (env : Env) (args : argContainer)
    (positional : list string) : R argContainer :=
  let NArg := len positional in
  let Arg := fun i : nat => nth i positional "" in
  (* Fork a child into the background if "-f" is not set AND we are
     mounting a filesystem *)
  run! _ := when (negb (foreground args) && (NArg =? 2))
              (call (forkChild env)) in
  (* "-v" *)
  run! _ := when (version args)
              (run! _ := act VersionText in os_Exit 0) in
  run! _ := when (debug args) (act (LogDebug "Debug output enabled")) in
  run! _ := when (wpanic args) (act (LogDebug "Panicing on warnings")) in
  (* Every operation below requires CIPHERDIR. Check that we have it. *)
  run! args :=
    if NArg >=? 1 then
      let args := with_cipherdir args (fst (filepath_Abs env (Arg 0%nat))) in
      match checkDir env (cipherdir args) with
      | Some err =>
          run! _ := act (Printf_err (colorRed (sys env) +:+
                           ("Invalid cipherdir: %v" +:+ newline) +:+
                           colorReset (sys env)) err) in
          os_Exit ERREXIT_CIPHERDIR
      | None => rret args
      end
    else
      run! _ := act UsageText in os_Exit ERREXIT_USAGE in
  (* "-config" *)
  run! args :=
    if negb (String.eqb (config args) "") then
      let '(c, err) := filepath_Abs env (config args) in
      let args := with_config args c in
      run! _ :=
        match err with
        | Some e =>
            act (Printf_err (colorRed (sys env) +:+ "Invalid " +:+ dquote +:+
                   "-config" +:+ dquote +:+ " setting: %v" +:+ newline +:+
                   colorReset (sys env)) e)
        | None => rret tt
        end in
      run! _ := act (Out (LogInfo
                  "Using config file at custom location %s")) in
      rret args
    else
      rret (with_config args
              (filepath_Join [cipherdir args; ConfDefaultName])) in
  (* "-cpuprofile" *)
  run! _ :=
    when (negb (String.eqb (cpuprofile args) ""))
      (run! _ := act (Out (LogInfo "Writing CPU profile to %s")) in
       match os_Create env (cpuprofile args) with
       | Some err =>
           run! _ := act (Out (StdoutErr err)) in os_Exit ERREXIT_INIT
       | None => act (CallStartCPUProfile (cpuprofile args))
       end) in
  (* "-memprofile" *)
  run! _ :=
    when (negb (String.eqb (memprofile args) ""))
      (run! _ := act (Out (LogInfo "Writing mem profile to %s")) in
       match os_Create env (memprofile args) with
       | Some err =>
           run! _ := act (Out (StdoutErr err)) in os_Exit ERREXIT_INIT
       | None => rret tt
       end) in
  rret args.

(** Second part of [main]: from the note on profiles to the return of
    [srv.Serve()]. *)
Definition main_run (env : Env) (args : argContainer)
    (positional : list string) : R unit :=
  let NArg := len positional in
  let Arg := fun i : nat => nth i positional "" in
  run! _ :=
    when (negb (String.eqb (cpuprofile args) "")
          || negb (String.eqb (memprofile args) ""))
      (act (Out (Stdout ("Note: You must unmount gracefully, otherwise " +:+
                         "the profile file(s) will stay empty!" +:+ newline)))) in
  (* "-openssl" *)
  run! _ := when (negb (openssl args))
              (act (Out (LogInfo "Openssl disabled"))) in
  (* Operation flags: init, passwd or mount *)
  (* "-init" *)
  run! _ :=
    when (init args)
      (run! _ :=
         when (NArg >? 1)
           (run! _ := act (Out (Stdout
                         ("Usage: %s -init [OPTIONS] CIPHERDIR" +:+ newline))) in
            os_Exit ERREXIT_USAGE) in
       initDir env args (* does not return *)) in
  (* "-passwd" *)
  run! _ :=
    when (passwd args)
      (run! _ :=
         when (NArg >? 1)
           (run! _ := act (Out (Stdout
                         ("Usage: %s -passwd [OPTIONS] CIPHERDIR" +:+ newline))) in
            os_Exit ERREXIT_USAGE) in
       changePassword env args (* does not return *)) in
  (* Mount *)
  (* Check mountpoint *)
  run! _ := when (negb (NArg =? 2))
              (run! _ := act UsageText in os_Exit ERREXIT_USAGE) in
  let '(m, err) := filepath_Abs env (Arg 1%nat) in
  let args := with_mountpoint args m in
  run! _ :=
    match err with
    | Some e =>
        run! _ := act (Printf_err (colorRed (sys env) +:+
                         ("Invalid mountpoint: %v" +:+ newline) +:+
                         colorReset (sys env)) e) in
        os_Exit ERREXIT_MOUNTPOINT
    | None => rret tt
    end in
  run! _ :=
    match checkDirEmpty env (mountpoint args) with
    | Some e =>
        run! _ := act (Printf_err (colorRed (sys env) +:+
                         ("Invalid mountpoint: %v" +:+ newline) +:+
                         colorReset (sys env)) e) in
        os_Exit ERREXIT_MOUNTPOINT
    | None => rret tt
    end in
  (* Get master key *)
  run! '(masterkey', confFile) := of_run (main_getMasterKey (sys env) args) in
  (* Initialize FUSE server *)
  run! _ := act (LogDebug "cli args: %v") in
  run! _ := initFuseFrontend env masterkey' args confFile in
  run! _ := act (Out (LogInfo (colorGreen env +:+
                   "Filesystem mounted and ready." +:+
                   colorReset (sys env)))) in
  (* We are ready - send USR1 signal to our parent and switch to syslog *)
  run! _ :=
    when (notifypid args >? 0)
      (run! _ := act (CallSendUsr1 (notifypid args)) in
       when (negb (nosyslog args)) (act CallSwitchToSyslog)) in
  (* Wait for SIGINT in the background and unmount ourselves if we get
     it. *)
  run! _ := act CallHandleSigint in
  (* Jump into server loop. Returns when it gets an umount request from
     the kernel. *)
  run! _ := act CallServe in
  call (srv_Serve env).

(** The deferred calls of [main], in the order in which they run: the
    heap profile of "-memprofile", then the end of the CPU profile. *)
Definition main_deferred (args : argContainer) : list action :=
  (if negb (String.eqb (memprofile args) "")
   then [CallWriteHeapProfile (memprofile args)] else [])
  ++ (if negb (String.eqb (cpuprofile args) "")
      then [CallStopCPUProfile] else []).

(** [main]: the deferred calls run when the second part returns or
    panics; [os.Exit] does not run them.  A return of [main] is the exit
    code 0.  The goroutine that [handleSigint] starts is not modelled. *)
Definition main (env : Env) (args : argContainer) (positional : list string)
    : R unit :=
  run! args := main_setup env args positional in
  match main_run env args positional with
  | (t, Returned tt) => (t ++ main_deferred args, Returned tt)
  | (t, Panicked msg) => (t ++ main_deferred args, Panicked msg)
  | (t, Exited code) => (t, Exited code)
  end.

End main.

Import nametransform.

(** ** Vocabulary of the properties *)

(** *** Padding *)

(** A padded name is malformed when its length is not a positive multiple
    of 16, or its final byte is outside [1, 16], or its trailing
    [padLen] bytes are not all equal to the final byte. *)
Definition malformed (padded : list byte) : Prop :=
  ~ (exists k, 0 < k /\ len padded = 16 * k)
  \/ (exists padByte, last padded = Some padByte /\
        ~ 1 <= int_of_byte padByte <= 16)
  \/ (exists padByte, last padded = Some padByte /\
        ~ Forall (fun x => x = padByte)
            (drop (Z.to_nat (len padded - int_of_byte padByte)) padded)).

(** *** The cache as a sequence of operations *)

Inductive cache_op : Type :=
| OpStore (dir' : string) (iv' : list byte) (translatedDir' : string)
| OpClear.

Definition apply_op (c : dirIVCache) (op : cache_op) : dirIVCache :=
  match op with
  | OpStore d i t => store c d i t
  | OpClear => Clear c
  end.

Definition run_ops (c : dirIVCache) (ops : list cache_op) : dirIVCache :=
  fold_left apply_op ops c.

Definition is_store (op : cache_op) : bool :=
  match op with OpStore _ _ _ => true | OpClear => false end.

(** The most recent store of a sequence of operations (the sequence is in
    program order). *)
Definition most_recent_store (ops : list cache_op)
    : option (string * list byte * string) :=
  match last (filter (fun op => is_store op = true) ops) with
  | Some (OpStore d i t) => Some (d, i, t)
  | _ => None
  end.

(** The cache is cleared when a [Clear] came after the most recent store,
    that is, when the most recent operation is a [Clear]. *)
Definition is_cleared (ops : list cache_op) : bool :=
  match last ops with
  | Some OpClear => true
  | _ => false
  end.

(** The single-slot semantics in the words of the specification: a hit if
    and only if the cache is not cleared and the directory is the one of
    the most recent store, with the values of that store. *)
Definition spec_lookup (ops : list cache_op) (d : string)
    : bool * list byte * string :=
  match most_recent_store ops with
  | Some (d0, iv0, t0) =>
      if negb (is_cleared ops) && String.eqb d0 d then (true, iv0, t0)
      else (false, [], "")
  | None => (false, [], "")
  end.

(** *** Path elements *)

Fixpoint has_slash (s : string) : bool :=
  match s with
  | EmptyString => false
  | String c s' => is_slash c || has_slash s'
  end.

(** A string that is one element of a clean path. *)
Definition valid_name (s : string) : Prop :=
  s <> "" /\ s <> "." /\ s <> ".." /\ has_slash s = false.

(** What the specification says of [EncryptName]: the empty name is an
    error (padding a zero-length input), and a ciphertext name is base64
    text, hence one path element. *)
Definition encryptName_wf (be : NameTransform) : Prop :=
  (forall iv' e, encryptName be "" iv' <> Returned e) /\
  (forall n iv' e, encryptName be n iv' = Returned e -> valid_name e).

(** *** Concrete inputs *)

(** A stand-in for the name cipher: it refuses the empty name as [pad16]
    does and writes an "E" in front of a name. *)
Definition toy_encryptName (plainName : string) (iv' : list byte)
    : outcome string :=
  if String.eqb plainName "" then
    Panicked "Padding zero-length string makes no sense"
  else if has_slash plainName then Panicked "not a path element"
  else Returned ("E" +:+ plainName).

Definition toy_be : NameTransform := {| encryptName := toy_encryptName |}.

Definition iv_root : list byte := replicate 16 x01.
Definition iv_a : list byte := replicate 16 x02.

(** A backing directory [/c] with the sub-directory [/c/Ea]; both hold a
    [gocryptfs.diriv] of 16 bytes, [/c/Ea/Eb] holds one of 3 bytes, and
    nothing else exists. *)
Definition toy_os : OS :=
  {| ReadFile := fun name =>
       if String.eqb name "/c/gocryptfs.diriv" then (iv_root, None)
       else if String.eqb name "/c/Ea/gocryptfs.diriv" then (iv_a, None)
       else if String.eqb name "/c/Ea/Eb/gocryptfs.diriv" then
         ([x01; x02; x03], None)
       else ([], Some (PathError "open" name ENOENT));
     Stat := fun name =>
       if String.eqb name "/c" || String.eqb name "/c/Ea"
          || String.eqb name "/c/Ea/Eb" then None
       else Some (PathError "stat" name ENOENT);
     Warn_PanicAfter := false |}.

(** A state whose cache was never written, before any call. *)
Definition world0 : World :=
  {| DirIVCache := dirIVCache_zero; trace := [] |}.

(** A config file with the default feature flags, and a system where
    only the passphrase hunter2 unlocks it; the user types hunter3. *)
Definition conf_default : main.ConfFile :=
  {| main.IsFeatureFlagSet := fun f =>
       match f with
       | main.FlagPlaintextNames => false
       | _ => true
       end |}.

Definition sys_hunter3 : main.Sys :=
  {| main.os_Stat := fun _ => None;
     main.readPassword := fun _ => Returned "hunter3";
     main.parseMasterKey := fun _ => Returned [];
     main.LoadConfFile := fun _ pw =>
       if String.eqb pw "hunter2" then
         (replicate 32 x2a, Some conf_default, None)
       else
         ([], None,
          Some (errorString "cipher: message authentication failed"));
     main.colorRed := "";
     main.colorReset := "" |}.

Definition args_mount : main.argContainer :=
  {| main.debug := false; main.init := false; main.zerokey := false;
     main.fusedebug := false; main.openssl := true; main.passwd := false;
     main.foreground := false; main.version := false;
     main.plaintextnames := false; main.quiet := false;
     main.diriv := true; main.emenames := true; main.gcmiv128 := true;
     main.nosyslog := false; main.wpanic := false;
     main.masterkey := ""; main.mountpoint := "/mnt";
     main.cipherdir := "/c"; main.cpuprofile := "";
     main.config := "/c/gocryptfs.conf"; main.extpass := "";
     main.memprofile := "";
     main.notifypid := 0; main.scryptn := 16 |}.

(** *** Decryption, traces and a writable file system *)

(** [DecryptName] undoes [encryptName] under the same IV. *)
Definition decrypts (be : NameTransform) (de : NameDecrypter) : Prop :=
  forall n iv' e,
    encryptName be n iv' = Returned e ->
    DecryptName de e iv' = Returned (n, None).

(** The inverse of [toy_encryptName]. *)
Definition toy_DecryptName (cipherName : string) (iv' : list byte)
    : outcome (string * option error) :=
  match cipherName with
  | String c n =>
      if Ascii.eqb c "E" && negb (String.eqb n "") && negb (has_slash n)
      then Returned (n, None)
      else Returned ("", Some (errorString "invalid name"))
  | EmptyString => Returned ("", Some (errorString "invalid name"))
  end.

Definition toy_de : NameDecrypter := {| DecryptName := toy_DecryptName |}.

(** The files that a trace reads, in order. *)
Definition files_read (t : list event) : list string :=
  omap (fun ev => match ev with EvReadFile name => Some name | _ => None end) t.

(** The directory that a walk from [rootDir] reaches through the
    encrypted names [encs]: [wd = filepath.Join(wd, encryptedName)] for
    each of them in turn. *)
Definition walked_dir (rootDir : string) (encs : list string) : string :=
  fold_left (fun wd e => filepath_Join [wd; e]) encs rootDir.

(** The warnings of a trace. *)
Definition is_warning (ev : event) : bool :=
  match ev with EvWarn _ => true | _ => false end.

(** The events of a walk on which nothing failed. *)
Definition is_routine (ev : event) : Prop :=
  match ev with
  | EvDebug _ | EvReadFile _ => True
  | EvStat _ | EvWarn _ => False
  end.

(** A computation that neither reads nor writes the cache: in every state
    it ends in [o] and adds the events [t] to the trace. *)
Definition pure_run {A : Type} (m : M A) (o : outcome A) (t : list event)
    : Prop :=
  forall w,
    m w = (o, {| DirIVCache := DirIVCache w; trace := trace w ++ t |}).

(** A file system in memory: a finite map from file names to contents;
    every write succeeds and every directory exists. *)
Definition mem_os (files : gmap string (list byte)) : OS :=
  {| ReadFile := fun name =>
       match files !! name with
       | Some data => (data, None)
       | None => ([], Some (PathError "open" name ENOENT))
       end;
     Stat := fun _ => None;
     Warn_PanicAfter := false |}.

Definition mem_fs : FileSystem :=
  {| fs_state := gmap string (list byte);
     fs_os := mem_os;
     fs_WriteFile := fun name data _ files => (None, <[name := data]> files) |}.

(** Reading back what was written: a write without error makes the file
    readable with the data written. *)
Definition write_then_read (fs : FileSystem) : Prop :=
  forall name data perm s s',
    fs_WriteFile fs name data perm s = (None, s') ->
    ReadFile (fs_os fs s') name = (data, None).

(** *** The runs of main *)

(** The exit codes that [main] and the functions of main.go that it
    calls pass to [os.Exit] themselves. *)
Definition own_exit_codes : list Z := [0; 1; 3; 6; 7; 8; 10].

(** [forkChild] is called, for a mount that does not stay in the
    foreground, and leaves the process with [code]. *)
Definition fork_exits (env : main.Env) (args : main.argContainer)
    (positional : list string) (code : Z) : Prop :=
  main.foreground args = false /\ len positional = 2 /\
  main.forkChild env = Exited code.

(** One of the other helpers that are taken as they are called leaves
    the process with [code], on the arguments with which the functions
    of main.go call it. *)
Definition helper_exits (env : main.Env) (args : main.argContainer)
    (code : Z) : Prop :=
  main.readPasswordTwice env (main.extpass args) = Exited code \/
  main.readPassword (main.sys env) (main.extpass args) = Exited code \/
  main.parseMasterKey (main.sys env) (main.masterkey args) = Exited code \/
  main.call_WriteDirIV env (main.cipherdir args) = Exited code \/
  main.srv_Serve env = Exited code.

(** The exits of the functions that [main] calls: one of the codes of
    main.go, or the exit of a helper. *)
Definition own_or_helper (env : main.Env) (args : main.argContainer)
    (code : Z) : Prop :=
  In code own_exit_codes \/ helper_exits env args code.

(** A run that leaves the process does so with a code in [P]. *)
Definition exits_within {A : Type} (P : Z -> Prop) (m : main.R A) : Prop :=
  forall code, snd m = Exited code -> P code.

(** Every action of a run satisfies [P]. *)
Definition all_actions {A : Type} (P : main.action -> bool) (m : main.R A)
    : Prop :=
  forallb P (fst m) = true.

Definition not_profile_end (a : main.action) : bool :=
  match a with
  | main.CallStopCPUProfile | main.CallWriteHeapProfile _ => false
  | _ => true
  end.


(** Actions that do not change the config file. *)
Definition not_rewrapping (a : main.action) : bool :=
  match a with
  | main.CallEncryptKey _ _ | main.CallWriteFile => false
  | _ => true
  end.

(** The mount of [args_mount], in the foreground. *)
Definition args_fg : main.argContainer :=
  {| main.debug := false; main.init := false; main.zerokey := false;
     main.fusedebug := false; main.openssl := true; main.passwd := false;
     main.foreground := true; main.version := false;
     main.plaintextnames := false; main.quiet := false;
     main.diriv := true; main.emenames := true; main.gcmiv128 := true;
     main.nosyslog := false; main.wpanic := false;
     main.masterkey := ""; main.mountpoint := "/mnt";
     main.cipherdir := "/c"; main.cpuprofile := "";
     main.config := "/c/gocryptfs.conf"; main.extpass := "";
     main.memprofile := "";
     main.notifypid := 0; main.scryptn := 16 |}.

(** A mount in the foreground with both profiles asked for. *)
Definition args_profile : main.argContainer :=
  {| main.debug := false; main.init := false; main.zerokey := true;
     main.fusedebug := false; main.openssl := true; main.passwd := false;
     main.foreground := true; main.version := false;
     main.plaintextnames := false; main.quiet := false;
     main.diriv := true; main.emenames := true; main.gcmiv128 := true;
     main.nosyslog := false; main.wpanic := false;
     main.masterkey := ""; main.mountpoint := "";
     main.cipherdir := ""; main.cpuprofile := "cpu.prof";
     main.config := ""; main.extpass := "";
     main.memprofile := "mem.prof";
     main.notifypid := 0; main.scryptn := 16 |}.

(** The writes of the config file. *)
Definition is_conf_write (a : main.action) : bool :=
  match a with main.CallWriteFile => true | _ => false end.

(** A system where the user types the right passphrase, and surroundings
    in which every call succeeds. *)
Definition sys_hunter2 : main.Sys :=
  {| main.os_Stat := fun _ => None;
     main.readPassword := fun _ => Returned "hunter2";
     main.parseMasterKey := fun _ => Returned [];
     main.LoadConfFile := main.LoadConfFile sys_hunter3;
     main.colorRed := "";
     main.colorReset := "" |}.

Definition env_of (s : main.Sys) : main.Env :=
  {| main.sys := s;
     main.colorGrey := "";
     main.colorGreen := "";
     main.checkDir := fun _ => None;
     main.checkDirEmpty := fun _ => None;
     main.readPasswordTwice := fun _ => Returned "hunter4";
     main.forkChild := Exited 0;
     main.CreateConfFile := fun _ _ _ _ => None;
     main.ConfFile_LogN := fun _ => 16;
     main.ConfFile_EncryptKey := fun cf _ _ _ => cf;
     main.ConfFile_WriteFile := fun _ => None;
     main.call_WriteDirIV := fun _ => Returned None;
     main.filepath_Abs := fun p => (p, None);
     main.os_Create := fun _ => None;
     main.fuse_NewServer := fun _ _ => None;
     main.srv_Serve := Returned tt |}.

(** * Properties *)

(** ** The models of the Go library on the examples of its documentation *)

Example Clean_examples :
  filepath_Clean "a//b/./c/.." = "a/b" /\
  filepath_Clean "/../a/b/../././/c" = "/a/c" /\
  filepath_Clean "" = "." /\
  filepath_Clean "../../x" = "../../x".
Proof. repeat split; reflexivity. Qed.

Example Dir_examples :
  filepath_Dir "/foo/bar/baz.js" = "/foo/bar" /\
  filepath_Dir "/foo/bar/baz/" = "/foo/bar/baz" /\
  filepath_Dir "dev.txt" = "." /\
  filepath_Dir "../todo.txt" = ".." /\
  filepath_Dir "/" = "/" /\
  filepath_Dir "" = ".".
Proof. repeat split; reflexivity. Qed.

Example Base_examples :
  filepath_Base "/foo/bar/baz.js" = "baz.js" /\
  filepath_Base "/foo/bar/baz/" = "baz" /\
  filepath_Base "dev.txt" = "dev.txt" /\
  filepath_Base "////" = "/" /\
  filepath_Base "" = ".".
Proof. repeat split; reflexivity. Qed.

Example Join_examples :
  filepath_Join ["a"; "b/c"] = "a/b/c" /\
  filepath_Join ["a"; ""] = "a" /\
  filepath_Join [""; "b"] = "b" /\
  filepath_Join ["a/b"; "../../../xyz"] = "../xyz" /\
  filepath_Join [""; ""] = "".
Proof. repeat split; reflexivity. Qed.

Example Split_examples :
  strings_Split "a/b/c" "/" = ["a"; "b"; "c"] /\
  strings_Split "" "/" = [""] /\
  strings_Split "/a/" "/" = [""; "a"; ""].
Proof. repeat split; reflexivity. Qed.

(** ** Bytes and slices *)

Lemma len_nonneg {A} (s : list A) : 0 <= len s.
Proof. unfold len. lia. Qed.

Lemma len_app {A} (s t : list A) : len (s ++ t) = len s + len t.
Proof. unfold len. rewrite length_app. lia. Qed.

Lemma len_nil_iff {A} (s : list A) : len s = 0 <-> s = [].
Proof.
  unfold len. destruct s; simpl; split; intros H; try done; lia.
Qed.

Lemma int_of_byte_range (b : byte) : 0 <= int_of_byte b < 256.
Proof.
  unfold int_of_byte. pose proof (Byte.to_N_bounded b) as H. lia.
Qed.

Lemma int_of_byte_of_int (n : Z) :
  0 <= n < 256 -> int_of_byte (byte_of_int n) = n.
Proof.
  intros Hn. unfold int_of_byte, byte_of_int.
  rewrite Z.mod_small by lia.
  destruct (Byte.of_N (Z.to_N n)) as [b|] eqn:E.
  - apply Byte.to_of_N in E. rewrite E. lia.
  - apply Byte.of_N_None_iff in E. lia.
Qed.

Lemma byte_eqb_refl (b : byte) : Byte.eqb b b = true.
Proof. by apply Byte.byte_dec_lb. Qed.

Lemma byte_eqb_eq (a b : byte) : Byte.eqb a b = true <-> a = b.
Proof.
  split; [apply Byte.byte_dec_bl | apply Byte.byte_dec_lb].
Qed.

(** ** pad16 and unPad16 *)

Section padding.

Implicit Types (b padded orig : list byte) (padByte : byte).

(** The filling loop overwrites the tail of the buffer from [i] on. *)
Lemma pad16_fill_spec (fuel : nat) padded padByte (i newLen : Z) :
  len padded = newLen -> 0 <= i -> i + Z.of_nat fuel = newLen ->
  pad16_fill fuel padded padByte i newLen
  = Returned (take (Z.to_nat i) padded ++ replicate fuel padByte).
Proof.
  revert padded i. induction fuel as [|fuel IH]; intros padded i Hlen Hi Hf.
  - simpl. rewrite take_ge, app_nil_r; [done|]. unfold len in Hlen. lia.
  - cbn [pad16_fill]. destruct (Z.ltb_spec i newLen) as [Hlt|]; [|lia].
    unfold index_set.
    destruct (Z.leb_spec 0 i); [|lia].
    destruct (Z.ltb_spec i (len padded)); [|lia]. cbn [andb obind].
    rewrite IH; [|unfold len in *; rewrite length_insert; lia|lia|lia].
    f_equal. replace (Z.to_nat (i + 1)) with (S (Z.to_nat i)) by lia.
    assert (Hlt' : (Z.to_nat i < length padded)%nat)
      by (unfold len in *; lia).
    erewrite take_S_r by (by apply list_lookup_insert_eq).
    rewrite take_insert_ge by lia.
    rewrite <- app_assoc. done.
Qed.

(** The padding length that [pad16] computes lies between 1 and 16. *)
Lemma padLen_range (n : Z) :
  0 <= n -> 1 <= aes_BlockSize - Z.rem n aes_BlockSize <= 16.
Proof.
  intros Hn. unfold aes_BlockSize. rewrite Z.rem_mod_nonneg by lia.
  pose proof (Z.mod_pos_bound n 16). lia.
Qed.

(** [pad16] in closed form. *)
Lemma pad16_spec orig :
  orig <> [] ->
  let padLen := aes_BlockSize - Z.rem (len orig) aes_BlockSize in
  pad16 orig
  = Returned (orig ++ replicate (Z.to_nat padLen) (byte_of_int padLen)).
Proof.
  intros Hne padLen. unfold pad16.
  pose proof (len_nonneg orig) as Hge.
  assert (len orig <> 0) as Hnz by (by rewrite len_nil_iff).
  destruct (Z.eqb_spec (len orig) 0) as [|_]; [done|].
  pose proof (padLen_range (len orig) Hge) as Hp. fold padLen in Hp |- *.
  destruct (Z.eqb_spec padLen 0) as [|_]; [lia|].
  unfold make. destruct (Z.leb_spec 0 (len orig + padLen)); [|lia].
  cbn [obind].
  assert (Hcopy : copy (replicate (Z.to_nat (len orig + padLen)) x00) orig
                  = orig ++ replicate (Z.to_nat padLen) x00).
  { unfold copy. rewrite length_replicate, drop_replicate.
    rewrite take_ge by (unfold len in *; lia).
    do 2 f_equal. unfold len. lia. }
  rewrite Hcopy, pad16_fill_spec.
  - f_equal. replace (len orig + padLen - len orig) with padLen by lia.
    f_equal. unfold len. rewrite Nat2Z.id. apply take_app_length.
  - rewrite len_app. unfold len. rewrite length_replicate. lia.
  - lia.
  - lia.
Qed.

(** The checking loop accepts exactly the buffers whose bytes from [i] on
    all equal [padByte]. *)
Lemma unPad16_check_spec (fuel : nat) padded padByte (i : Z) :
  0 <= i -> i + Z.of_nat fuel = len padded ->
  (Forall (fun x => x = padByte) (drop (Z.to_nat i) padded) /\
   unPad16_check fuel padded padByte i (len padded) = Returned None)
  \/
  (~ Forall (fun x => x = padByte) (drop (Z.to_nat i) padded) /\
   exists e,
     unPad16_check fuel padded padByte i (len padded) = Returned (Some e)).
Proof.
  revert i. induction fuel as [|fuel IH]; intros i Hi Hf.
  - left. split; [|done]. rewrite drop_ge; [done|]. unfold len in Hf. lia.
  - cbn [unPad16_check]. destruct (Z.ltb_spec i (len padded)); [|lia].
    unfold index.
    destruct (Z.leb_spec 0 i); [|lia].
    destruct (Z.ltb_spec i (len padded)); [|lia]. cbn [andb].
    destruct (padded !! Z.to_nat i) as [x|] eqn:Hx.
    2: { apply lookup_ge_None in Hx. unfold len in *. lia. }
    cbn [obind].
    rewrite (drop_S _ _ _ Hx).
    replace (S (Z.to_nat i)) with (Z.to_nat (i + 1)) by lia.
    destruct (Byte.eqb x padByte) eqn:Hxb; cbn [negb].
    + apply byte_eqb_eq in Hxb. subst x.
      destruct (IH (i + 1)) as [[Hall Hr]|[Hnall Hr]]; [lia|lia| |].
      * left. split; [by constructor|done].
      * right. split; [|done]. intros Hall. apply Hnall.
        by inversion Hall.
    + right. split; [|by eexists]. intros Hall. inversion Hall; subst.
      rewrite byte_eqb_refl in Hxb. done.
Qed.

(** The last element of a non-empty slice is [s[len(s)-1]]. *)
Lemma index_last padded padByte :
  last padded = Some padByte -> index padded (len padded - 1) = Returned padByte.
Proof.
  intros Hl. rewrite last_lookup in Hl.
  assert (length padded <> 0)%nat
    by (destruct padded; [discriminate|simpl; lia]).
  unfold index, len.
  destruct (Z.leb_spec 0 (Z.of_nat (length padded) - 1)); [|lia].
  destruct (Z.ltb_spec (Z.of_nat (length padded) - 1)
              (Z.of_nat (length padded))); [|lia].
  cbn [andb].
  replace (Z.to_nat (Z.of_nat (length padded) - 1))
    with (pred (length padded)) by lia.
  by rewrite Hl.
Qed.

(** What [unPad16] does on a non-empty input whose last byte is [padByte]:
    either every check passes and the input without its last
    [int(padByte)] bytes is returned, or a check fails and an error is
    returned together with the nil slice. *)
Lemma unPad16_nonempty padded padByte :
  last padded = Some padByte ->
  let padLen := int_of_byte padByte in
  let oldLen := len padded in
  let tail := drop (Z.to_nat (oldLen - padLen)) padded in
  (unPad16 padded = Returned (take (Z.to_nat (oldLen - padLen)) padded, None)
   /\ Z.rem oldLen 16 = 0 /\ 1 <= padLen <= 16
   /\ Forall (fun x => x = padByte) tail /\ padLen < oldLen)
  \/
  ((exists e, unPad16 padded = Returned ([], Some e))
   /\ (Z.rem oldLen 16 <> 0 \/ ~ 1 <= padLen <= 16
       \/ ~ Forall (fun x => x = padByte) tail \/ oldLen = padLen)).
Proof.
  intros Hl padLen oldLen tail. unfold unPad16.
  rewrite (index_last _ _ Hl). cbn [obind]. fold oldLen padLen.
  assert (0 < oldLen) as Hpos.
  { unfold oldLen, len. destruct padded; [discriminate|simpl; lia]. }
  change aes_BlockSize with 16.
  destruct (Z.eqb_spec (Z.rem oldLen 16) 0) as [Hrem|Hrem]; cbn [negb].
  2: { right. split; [by eexists|by left]. }
  assert (16 <= oldLen) as H16.
  { rewrite Z.rem_mod_nonneg in Hrem by lia.
    apply Z.mod_divide in Hrem; [|lia]. destruct Hrem as [k ->]. lia. }
  destruct (Z.leb_spec padLen 0).
  { right. split; [by eexists|]. right; left. lia. }
  destruct (Z.gtb_spec padLen 16).
  { right. split; [by eexists|]. right; left. lia. }
  replace (oldLen - (oldLen - padLen)) with padLen by lia.
  pose proof (unPad16_check_spec (Z.to_nat padLen) padded padByte
                (oldLen - padLen)) as Hc.
  fold oldLen tail in Hc.
  destruct Hc as [[Hall ->]|[Hnall [e ->]]]; [lia|lia| |]; cbn [obind].
  2: { right. split; [by eexists|]. by right; right; left. }
  destruct (Z.eqb_spec (oldLen - padLen) 0).
  { right. split; [by eexists|]. right; right; right. lia. }
  left. unfold slice. fold oldLen.
  destruct (Z.leb_spec 0 (oldLen - padLen)); [|lia].
  destruct (Z.leb_spec (oldLen - padLen) oldLen); [|lia].
  cbn [andb Z.leb Z.compare obind]. rewrite Z.sub_0_r.
  change (Z.to_nat 0) with 0%nat. rewrite drop_0.
  repeat split; try done; lia.
Qed.

End padding.

(** C1. Padding round-trip: for every non-empty byte sequence [b],
    [pad16 b] returns a slice whose length is a positive multiple of 16,
    strictly greater than [len b] and at most [len b + 16], and [unPad16]
    of that slice succeeds and returns exactly [b]. *)
Theorem pad16_unPad16_roundtrip (b : list byte) :
  b <> [] ->
  exists padded,
    pad16 b = Returned padded /\
    (exists k, 0 < k /\ len padded = 16 * k) /\
    len b < len padded <= len b + 16 /\
    unPad16 padded = Returned (b, None).
Proof.
  intros Hne.
  pose proof (pad16_spec b Hne) as Hpad. cbv zeta in Hpad.
  pose proof (len_nonneg b) as Hge.
  pose proof (padLen_range (len b) Hge) as Hp.
  set (padLen := aes_BlockSize - Z.rem (len b) aes_BlockSize) in *.
  set (padByte := byte_of_int padLen) in *.
  exists (b ++ replicate (Z.to_nat padLen) padByte).
  assert (Hlen : len (b ++ replicate (Z.to_nat padLen) padByte)
                 = len b + padLen).
  { rewrite len_app. unfold len at 2. rewrite length_replicate. lia. }
  assert (Hint : int_of_byte padByte = padLen)
    by (apply int_of_byte_of_int; lia).
  assert (Hmul : len b + padLen = 16 * (len b / 16 + 1)).
  { unfold padLen, aes_BlockSize. rewrite Z.rem_mod_nonneg by lia.
    pose proof (Z.div_mod (len b) 16 ltac:(lia)). lia. }
  split; [done|]. split; [|split; [lia|]].
  - exists (len b / 16 + 1). rewrite Hlen.
    pose proof (Z.div_pos (len b) 16 ltac:(lia) ltac:(lia)). lia.
  - assert (Hlast : last (b ++ replicate (Z.to_nat padLen) padByte)
                    = Some padByte).
    { destruct (Z.to_nat padLen) as [|n] eqn:En; [lia|].
      rewrite replicate_S_end, app_assoc. apply last_snoc. }
    destruct (unPad16_nonempty _ _ Hlast) as [(Hr & _)|(_ & Hbad)].
    + rewrite Hr, Hlen, Hint. do 2 f_equal.
      replace (Z.to_nat (len b + padLen - padLen)) with (length b)
        by (unfold len; lia).
      apply take_app_length.
    + exfalso. rewrite Hlen, Hint in Hbad.
      destruct Hbad as [Hb|[Hb|[Hb|Hb]]].
      * apply Hb. rewrite Hmul, Z.rem_mod_nonneg by lia.
        rewrite Z.mul_comm. apply Z_mod_mult.
      * lia.
      * apply Hb.
        replace (Z.to_nat (len b + padLen - padLen)) with (length b)
          by (unfold len; lia).
        rewrite drop_app_length. by apply Forall_replicate.
      * assert (len b <> 0) by (by rewrite len_nil_iff). lia.
Qed.

Lemma pad16_unPad16_roundtrip_witness :
  [x61; x62; x63] <> [] /\
  exists padded,
    pad16 [x61; x62; x63] = Returned padded /\
    (exists k, 0 < k /\ len padded = 16 * k) /\
    len [x61; x62; x63] < len padded <= len [x61; x62; x63] + 16 /\
    unPad16 padded = Returned ([x61; x62; x63], None).
Proof.
  split; [discriminate|].
  apply (pad16_unPad16_roundtrip [x61; x62; x63]). discriminate.
Defined.

(** On a non-empty input [unPad16] never panics. *)
Lemma unPad16_nonempty_returns (padded : list byte) :
  padded <> [] -> exists r, unPad16 padded = Returned r.
Proof.
  intros Hne. destruct (last padded) as [padByte|] eqn:Hl.
  - destruct (unPad16_nonempty _ _ Hl) as [(Hr & _)|([e Hr] & _)];
      rewrite Hr; by eexists.
  - by apply last_None in Hl.
Qed.

(** Every malformed input that is not empty is rejected: [unPad16]
    returns an error and the nil slice. *)
Lemma unPad16_rejects_malformed_nonempty (padded : list byte) :
  padded <> [] -> malformed padded ->
  exists e, unPad16 padded = Returned ([], Some e).
Proof.
  intros Hne Hmal. destruct (last padded) as [padByte|] eqn:Hl.
  2: { by apply last_None in Hl. }
  destruct (unPad16_nonempty _ _ Hl) as [(_ & Hrem & Hp & Hall & Hlt)|[He _]];
    [exfalso|done].
  destruct Hmal as [Hm|[(pb & Hpb & Hm)|(pb & Hpb & Hm)]].
  - apply Hm. pose proof (len_nonneg padded).
    rewrite Z.rem_mod_nonneg in Hrem by lia.
    apply Z.mod_divide in Hrem; [|lia]. destruct Hrem as [k Hk].
    exists k. split; lia.
  - rewrite Hl in Hpb. by injection Hpb as <-.
  - rewrite Hl in Hpb. by injection Hpb as <-.
Qed.

(** C2. The claim asks that every malformed input, the empty sequence
    included, makes [unPad16] return an error.  The empty sequence is
    malformed, but on it [unPad16] reads [padded[-1]] and panics instead
    of returning. *)
Theorem unPad16_empty_panics :
  malformed [] /\ unPad16 [] = Panicked "index out of range".
Proof.
  split; [|reflexivity].
  left. intros (k & Hk & Hlen). unfold len in Hlen. simpl in Hlen. lia.
Qed.

(** C10. Unpadded output is never empty: whenever [unPad16] succeeds, the
    returned plaintext is non-empty and strictly shorter than the
    input. *)
Theorem unPad16_output_nonempty (padded plain : list byte) :
  unPad16 padded = Returned (plain, None) ->
  plain <> [] /\ 0 < len plain < len padded.
Proof.
  intros Hr. destruct (last padded) as [padByte|] eqn:Hl.
  - destruct (unPad16_nonempty _ _ Hl)
      as [(Hok & _ & Hp & _ & Hlt)|([e He] & _)].
    + rewrite Hok in Hr. injection Hr as <-.
      assert (Hlen : len (take (Z.to_nat (len padded - int_of_byte padByte))
                            padded)
                     = len padded - int_of_byte padByte).
      { unfold len. rewrite length_take. unfold len in Hlt. lia. }
      split; [|lia]. intros Hnil. rewrite Hnil in Hlen.
      unfold len at 1 in Hlen. simpl in Hlen. lia.
    + rewrite He in Hr. discriminate.
  - apply last_None in Hl. subst padded. discriminate.
Qed.

Lemma unPad16_output_nonempty_witness :
  unPad16 (replicate 15 x61 ++ [x01]) = Returned (replicate 15 x61, None) /\
  replicate 15 x61 <> [] /\
  0 < len (replicate 15 x61) < len (replicate 15 x61 ++ [x01]).
Proof.
  split; [reflexivity|].
  apply (unPad16_output_nonempty (replicate 15 x61 ++ [x01])).
  reflexivity.
Defined.

(** ** The DirIV cache *)

Lemma run_ops_snoc (c : dirIVCache) (ops : list cache_op) (op : cache_op) :
  run_ops c (ops ++ [op]) = apply_op (run_ops c ops) op.
Proof. unfold run_ops. by rewrite fold_left_app. Qed.

Lemma lookup_Clear (c : dirIVCache) (d : string) :
  lookup (Clear c) d = (false, [], "").
Proof. reflexivity. Qed.

Lemma lookup_store (c : dirIVCache) (d d' : string) (i : list byte)
    (t : string) :
  lookup (store c d i t) d'
  = if String.eqb d d' then (true, i, t) else (false, [], "").
Proof. reflexivity. Qed.

(** A run of [Clear]s after a [Clear] leaves the cache cleared. *)
Lemma run_ops_cleared (c : dirIVCache) (ops : list cache_op) :
  cleared c = true ->
  Forall (fun op => is_store op = false) ops ->
  cleared (run_ops c ops) = true.
Proof.
  intros Hc Hall. revert c Hc.
  induction Hall as [|op ops Hop _ IH]; intros c Hc; [done|].
  destruct op; [discriminate|]. simpl. by apply IH.
Qed.

(** On a fresh cache the claim of C7 fails: no store has happened, yet the
    lookup of the empty directory name is a hit (with a nil IV). *)
Lemma fresh_cache_lookup_hits :
  lookup (run_ops dirIVCache_zero []) "" = (true, [], "") /\
  spec_lookup [] "" = (false, [], "") /\
  lookup (run_ops dirIVCache_zero []) "" <> spec_lookup [] "".
Proof. split; [reflexivity|split; [reflexivity|discriminate]]. Qed.

(** C7 (amended). Single-slot cache semantics: for every sequence of
    store and [Clear] operations on a fresh cache and every directory
    [d], except the empty sequence together with [d] the empty name,
    and for every non-empty sequence from any state of the cache,
    [lookup d] is a hit if and only if the cache is not cleared and [d]
    is the directory of the most recent store, and then it returns the iv
    and translatedDir of that store; after [Clear] every lookup misses
    until the next store; and [store d iv t] makes [lookup d'] miss for
    every [d'] different from [d]. *)
Theorem dirIVCache_single_slot (c : dirIVCache) :
  (forall ops d, ops <> [] \/ d <> "" ->
     lookup (run_ops dirIVCache_zero ops) d = spec_lookup ops d)
  /\ (forall ops d, ops <> [] -> lookup (run_ops c ops) d = spec_lookup ops d)
  /\ (forall ops d, Forall (fun op => is_store op = false) ops ->
        lookup (run_ops (Clear c) ops) d = (false, [], ""))
  /\ (forall d i t d', d' <> d ->
        lookup (store c d i t) d' = (false, [], "")).
Proof.
  assert (Hops : forall c0 ops d, ops <> [] ->
            lookup (run_ops c0 ops) d = spec_lookup ops d).
  { intros c0 ops d Hne.
    destruct (exists_last Hne) as (ops' & op & ->).
    rewrite run_ops_snoc. unfold spec_lookup, most_recent_store, is_cleared.
    rewrite last_snoc, filter_app.
    destruct op as [d0 i0 t0|]; simpl.
    + rewrite filter_cons_True, filter_nil by done.
      rewrite last_snoc. apply lookup_store.
    + rewrite lookup_Clear.
      by destruct (last _) as [[? ? ?|]|]. }
  split; [|split; [|split]].
  - intros [|op ops] d Hne; [|by apply Hops].
    destruct Hne as [Hne|Hne]; [done|].
    unfold run_ops, lookup, spec_lookup. simpl.
    by destruct d.
  - intros ops d. apply Hops.
  - intros ops d Hall. unfold lookup.
    rewrite run_ops_cleared; done.
  - intros d i t d' Hne. rewrite lookup_store.
    destruct (String.eqb_spec d d'); congruence.
Qed.

Lemma dirIVCache_single_slot_witness :
  lookup (run_ops dirIVCache_zero []) "a" = (false, [], "") /\
  lookup (run_ops dirIVCache_zero
            [OpStore "a" iv_root "Ea"; OpClear; OpStore "b" iv_a "Eb"]) "b"
  = (true, iv_a, "Eb") /\
  lookup (run_ops (Clear dirIVCache_zero) [OpClear]) "" = (false, [], "") /\
  lookup (store dirIVCache_zero "a" iv_root "Ea") "b" = (false, [], "").
Proof.
  destruct (dirIVCache_single_slot dirIVCache_zero) as (H0 & H1 & H2 & H3).
  split; [|split; [|split]].
  - rewrite H0; [reflexivity|right; discriminate].
  - rewrite H1; [reflexivity|discriminate].
  - apply H2. repeat constructor.
  - apply H3. discriminate.
Defined.

(** ** ReadDirIV *)

(** [ReadDirIV] does not touch the cache. *)
Lemma ReadDirIV_cache (os : OS) (d : string) (w : World) :
  DirIVCache (snd (ReadDirIV os d w)) = DirIVCache w.
Proof.
  unfold ReadDirIV, Debug_Printf, Warn_Printf, bind, emit, ret, lift.
  simpl. destruct (ReadFile os _) as [i [e|]]; simpl.
  - destruct (os_IsNotExist _); simpl; [done|].
    by destruct (Warn_PanicAfter os).
  - by destruct (negb _).
Qed.

(** C6. ReadDirIV length validation: [ReadDirIV] returns an IV only when
    the [gocryptfs.diriv] file was read successfully and its content is
    exactly 16 bytes, and then the IV is that content; if the content has
    any other length, it returns an error and no IV; and whenever it
    returns an error it returns no IV. *)
Theorem ReadDirIV_length_validation (os : OS) (d : string) (w : World) :
  let ivfile := filepath_Join [d; DirIVFilename] in
  (forall i w', ReadDirIV os d w = (Returned (i, None), w') ->
     ReadFile os ivfile = (i, None) /\ len i = 16)
  /\ (forall content, ReadFile os ivfile = (content, None) ->
        len content <> 16 ->
        exists e w', ReadDirIV os d w = (Returned ([], Some e), w'))
  /\ (forall i e w', ReadDirIV os d w = (Returned (i, Some e), w') ->
        i = []).
Proof.
  intros ivfile.
  unfold ReadDirIV, Debug_Printf, Warn_Printf, bind, emit, ret, lift.
  fold ivfile. simpl.
  destruct (ReadFile os ivfile) as [content [e|]] eqn:Hread; simpl.
  - split; [|split].
    + intros i w'. destruct (os_IsNotExist _); simpl; [discriminate|].
      destruct (Warn_PanicAfter os); discriminate.
    + discriminate.
    + intros i e' w'. destruct (os_IsNotExist _); simpl; [congruence|].
      destruct (Warn_PanicAfter os); congruence.
  - unfold dirIVLen. destruct (Z.eqb_spec (len content) 16) as [Hlen|Hlen];
      simpl; (split; [|split]).
    + intros i w' [= <- <-]. done.
    + intros content' [= <-] Hne. done.
    + discriminate.
    + discriminate.
    + intros content' [= <-] _. by do 2 eexists.
    + congruence.
Qed.

Lemma ReadDirIV_length_validation_witness :
  ReadDirIV toy_os "/c" world0
  = (Returned (iv_root, None),
     {| DirIVCache := dirIVCache_zero;
        trace := [EvDebug ("ReadDirIV: reading %s" +:+ newline);
                  EvReadFile "/c/gocryptfs.diriv"] |})
  /\ (ReadFile toy_os "/c/gocryptfs.diriv" = (iv_root, None) /\
      len iv_root = 16)
  /\ exists e w', ReadDirIV toy_os "/c/Ea/Eb" world0
                  = (Returned ([], Some e), w').
Proof.
  destruct (ReadDirIV_length_validation toy_os "/c" world0) as (H1 & _ & _).
  destruct (ReadDirIV_length_validation toy_os "/c/Ea/Eb" world0)
    as (_ & H2 & _).
  split; [reflexivity|]. split.
  - eapply H1. reflexivity.
  - eapply H2; [reflexivity|]. discriminate.
Defined.

(** ** Mounting *)

(** C4. Feature-flag normalization: for every combination of command-line
    flags and config-file feature flags (and also without a config file),
    the frontend arguments computed at mount satisfy: EMENames implies
    DirIV, and PlaintextNames implies neither DirIV nor EMENames. *)
Theorem initFuseFrontend_flags_normalized (key : list byte)
    (args : main.argContainer) (confFile : option main.ConfFile) :
  let frontendArgs := main.initFuseFrontend_frontendArgs key args confFile in
  (main.EMENames frontendArgs = true -> main.DirIV frontendArgs = true) /\
  (main.PlaintextNames frontendArgs = true ->
     main.DirIV frontendArgs = false /\ main.EMENames frontendArgs = false).
Proof.
  unfold main.initFuseFrontend_frontendArgs.
  destruct confFile as [cf|]; simpl.
  - destruct (main.IsFeatureFlagSet cf main.FlagEMENames),
             (main.IsFeatureFlagSet cf main.FlagPlaintextNames),
             (main.IsFeatureFlagSet cf main.FlagDirIV); simpl; auto.
  - destruct (main.emenames args), (main.plaintextnames args),
             (main.diriv args); simpl; auto.
Qed.

(** The config file decides: with a config file the naming flags of the
    command line are ignored. *)
Lemma initFuseFrontend_config_overrides (key : list byte)
    (args : main.argContainer) (cf : main.ConfFile) :
  let frontendArgs := main.initFuseFrontend_frontendArgs key args (Some cf) in
  main.PlaintextNames frontendArgs
  = main.IsFeatureFlagSet cf main.FlagPlaintextNames /\
  main.GCMIV128 frontendArgs = main.IsFeatureFlagSet cf main.FlagGCMIV128.
Proof.
  unfold main.initFuseFrontend_frontendArgs. simpl.
  destruct (main.IsFeatureFlagSet cf main.FlagEMENames),
           (main.IsFeatureFlagSet cf main.FlagPlaintextNames); simpl; auto.
Qed.

(** [loadConfig] leaves the process with [ERREXIT_LOADCONF] when the
    config file cannot be unlocked. *)
Lemma loadConfig_wrong_password (sys : main.Sys) (args : main.argContainer)
    (pw : string) (key : list byte) (cf : option main.ConfFile) (e : error) :
  main.os_Stat sys (main.config args) = None ->
  main.readPassword sys (main.extpass args) = Returned pw ->
  main.LoadConfFile sys (main.config args) pw = (key, cf, Some e) ->
  snd (main.loadConfig sys args) = Exited main.ERREXIT_LOADCONF.
Proof.
  intros Hstat Hpw Hload. unfold main.loadConfig.
  by rewrite Hstat, Hpw, Hload.
Qed.

(** The claim of C5 fails: the user types hunter3, the config file is
    unlocked by hunter2 only, and the mount exits with code 8, not 9. *)
Lemma wrong_password_exits_8_not_9 :
  main.masterkey args_mount = "" /\ main.zerokey args_mount = false /\
  main.readPassword sys_hunter3 (main.extpass args_mount)
  = Returned "hunter3" /\
  (exists e, main.LoadConfFile sys_hunter3 (main.config args_mount) "hunter3"
             = ([], None, Some e)) /\
  snd (main.main_getMasterKey sys_hunter3 args_mount) = Exited 8 /\
  snd (main.main_getMasterKey sys_hunter3 args_mount)
  <> Exited main.ERREXIT_PASSWORD.
Proof.
  repeat (split; [reflexivity|]). split; [by eexists|].
  split; [reflexivity|discriminate].
Qed.

(** C5 (amended). Wrong-password exit code: for every mount attempt that
    takes the master key from the config file and whose passphrase fails
    to unlock it ([LoadConfFile] returns an error), the process exits
    with exit code 8 (config load failure, [ERREXIT_LOADCONF]), after
    printing the error and "Wrong password.". *)
Theorem wrong_password_exit_code (sys : main.Sys) (args : main.argContainer)
    (pw : string) (key : list byte) (cf : option main.ConfFile) (e : error) :
  main.masterkey args = "" -> main.zerokey args = false ->
  main.os_Stat sys (main.config args) = None ->
  main.readPassword sys (main.extpass args) = Returned pw ->
  main.LoadConfFile sys (main.config args) pw = (key, cf, Some e) ->
  snd (main.main_getMasterKey sys args) = Exited 8 /\
  main.ERREXIT_LOADCONF = 8 /\
  exists out,
    fst (main.main_getMasterKey sys args)
    = out ++ [main.StdoutErr e;
              main.Stdout (main.colorRed sys +:+ "Wrong password." +:+
                          main.colorReset sys)].
Proof.
  intros Hmk Hzk Hstat Hpw Hload. unfold main.main_getMasterKey.
  rewrite Hmk, Hzk. simpl. unfold main.loadConfig.
  rewrite Hstat, Hpw, Hload. simpl. repeat split. by eexists.
Qed.

Lemma wrong_password_exit_code_witness :
  snd (main.main_getMasterKey sys_hunter3 args_mount) = Exited 8 /\
  main.ERREXIT_LOADCONF = 8 /\
  exists out,
    fst (main.main_getMasterKey sys_hunter3 args_mount)
    = out ++ [main.StdoutErr
                (errorString "cipher: message authentication failed");
              main.Stdout (main.colorRed sys_hunter3 +:+ "Wrong password." +:+
                          main.colorReset sys_hunter3)].
Proof.
  apply (wrong_password_exit_code sys_hunter3 args_mount "hunter3" [] None);
    reflexivity.
Defined.

(** ** EncryptPathDirIV *)

(** C8. Root path identity: for every rootDir, [EncryptPathDirIV] of the
    empty path returns the empty string with no error; the state after
    the call is the state before it, so no [gocryptfs.diriv] file is read
    (the trace of calls is unchanged) and the DirIVCache is not
    modified. *)
Theorem EncryptPathDirIV_root (be : NameTransform) (os : OS)
    (rootDir : string) (w : World) :
  exists w',
    EncryptPathDirIV be os "" rootDir w = (Returned ("", None), w') /\
    w' = w /\
    DirIVCache w' = DirIVCache w /\
    trace w' = trace w /\
    Forall (fun ev => forall name, ev <> EvReadFile name)
      (drop (length (trace w)) (trace w')).
Proof.
  exists w. unfold EncryptPathDirIV. rewrite String.eqb_refl.
  repeat split. rewrite drop_all. constructor.
Qed.

(** *** Paths made of valid names *)

Lemma strings_Split_nonempty (s : string) (sep : ascii) :
  strings_Split s sep <> [].
Proof.
  destruct s as [|c s]; simpl; [done|].
  destruct (Ascii.eqb c sep); [done|].
  by destruct (strings_Split s sep).
Qed.

Lemma strings_Split_no_slash (s : string) :
  has_slash s = false -> strings_Split s "/" = [s].
Proof.
  induction s as [|c s IH]; simpl; [done|].
  unfold is_slash. intros [Hc Hs]%orb_false_elim.
  rewrite Hc, IH; done.
Qed.

Lemma strings_Split_app (a b : string) :
  strings_Split (a +:+ String "/" b) "/"
  = strings_Split a "/" ++ strings_Split b "/".
Proof.
  induction a as [|c a IH]; simpl; [done|].
  destruct (Ascii.eqb c "/"); rewrite IH; [done|].
  pose proof (strings_Split_nonempty a "/").
  by destruct (strings_Split a "/").
Qed.

Lemma strings_Join_cons (x : string) (xs : list string) :
  xs <> [] ->
  strings_Join (x :: xs) "/" = x +:+ String "/" (strings_Join xs "/").
Proof. destruct xs; [done|reflexivity]. Qed.

Lemma strings_Split_Join (names : list string) :
  names <> [] -> Forall (fun n => has_slash n = false) names ->
  strings_Split (strings_Join names "/") "/" = names.
Proof.
  intros Hne Hall. induction Hall as [|n names Hn Hall IH]; [done|].
  destruct names as [|m names].
  - simpl. by apply strings_Split_no_slash.
  - rewrite strings_Join_cons, strings_Split_app by done.
    rewrite strings_Split_no_slash, IH; done.
Qed.

Lemma string_app_assoc (a b c : string) :
  (a +:+ b) +:+ c = a +:+ (b +:+ c).
Proof.
  induction a as [|x a IH]; [done|].
  change (String x ((a +:+ b) +:+ c) = String x (a +:+ (b +:+ c))).
  by rewrite IH.
Qed.

Lemma string_app_nil_l (a : string) : "" +:+ a = a.
Proof. reflexivity. Qed.

Lemma strings_Join_snoc (xs : list string) (x : string) :
  xs <> [] ->
  strings_Join (xs ++ [x]) "/" = strings_Join xs "/" +:+ String "/" x.
Proof.
  induction xs as [|y xs IH]; [done|]. intros _.
  destruct xs as [|z xs]; [reflexivity|].
  change ((y :: z :: xs) ++ [x]) with (y :: ((z :: xs) ++ [x])).
  rewrite !strings_Join_cons by done. rewrite IH by done.
  by rewrite string_app_assoc.
Qed.

Lemma valid_name_no_slash (s : string) : valid_name s -> has_slash s = false.
Proof. by intros (_ & _ & _ & H). Qed.

Lemma clean_step_valid (rooted : bool) (kept : list string) (e : string) :
  valid_name e -> clean_step rooted kept e = e :: kept.
Proof.
  intros (H1 & H2 & H3 & _). unfold clean_step.
  destruct (String.eqb_spec e ""); [done|].
  destruct (String.eqb_spec e "."); [done|].
  destruct (String.eqb_spec e ".."); done.
Qed.

Lemma clean_fold_valid (rooted : bool) (names kept : list string) :
  Forall valid_name names ->
  fold_left (clean_step rooted) names kept = rev names ++ kept.
Proof.
  intros Hall. revert kept.
  induction Hall as [|n names Hn _ IH]; intros kept; [done|].
  simpl. rewrite clean_step_valid, IH by done.
  by rewrite <- app_assoc.
Qed.

Lemma strings_Join_valid_head (names : list string) :
  names <> [] -> Forall valid_name names ->
  is_rooted (strings_Join names "/") = false /\
  strings_Join names "/" <> "".
Proof.
  intros Hne Hall. destruct Hall as [|n names (Hn & _ & _ & Hs) _]; [done|].
  destruct n as [|c n]; [done|]. simpl in Hs.
  apply orb_false_elim in Hs as [Hc _].
  destruct names; simpl; by rewrite ?Hc.
Qed.

(** A path that is a slash-separated sequence of valid names is clean. *)
Lemma filepath_Clean_valid (names : list string) :
  names <> [] -> Forall valid_name names ->
  filepath_Clean (strings_Join names "/") = strings_Join names "/".
Proof.
  intros Hne Hall. unfold filepath_Clean.
  destruct (strings_Join_valid_head names Hne Hall) as [-> Hnz].
  rewrite strings_Split_Join, clean_fold_valid; try done.
  - rewrite app_nil_r, rev_involutive, string_app_nil_l.
    by destruct (String.eqb_spec (strings_Join names "/") "").
  - eapply Forall_impl; [done|]. apply valid_name_no_slash.
Qed.

(** The directory of a path of at least two valid names is the path
    without its last name. *)
Lemma filepath_Dir_valid (names : list string) (name : string) :
  names <> [] -> Forall valid_name names -> valid_name name ->
  filepath_Dir (strings_Join (names ++ [name]) "/")
  = strings_Join names "/".
Proof.
  intros Hne Hall Hname. unfold filepath_Dir.
  rewrite strings_Split_Join.
  2: { by destruct names. }
  2: { apply Forall_app. split; [|constructor; [|done]].
       - eapply Forall_impl; [done|]. apply valid_name_no_slash.
       - by apply valid_name_no_slash. }
  rewrite removelast_last.
  assert (Hm : match names with
               | [] => ""
               | _ :: _ => strings_Join names "/" +:+ "/"
               end = strings_Join names "/" +:+ "/")
    by (by destruct names).
  cbv zeta. rewrite Hm. clear Hm. unfold filepath_Clean.
  assert (Hr : is_rooted (strings_Join names "/" +:+ "/") = false).
  { destruct (strings_Join_valid_head names Hne Hall) as [Hr Hnz].
    destruct (strings_Join names "/"); [congruence|exact Hr]. }
  rewrite Hr.
  change (strings_Join names "/" +:+ "/")
    with (strings_Join names "/" +:+ String "/" "").
  rewrite strings_Split_app, strings_Split_Join; try done.
  2: { eapply Forall_impl; [done|]. apply valid_name_no_slash. }
  rewrite fold_left_app, (clean_fold_valid false names []) by done.
  change (fold_left (clean_step false) (strings_Split "" "/")
            (rev names ++ [])) with (rev names ++ []).
  rewrite app_nil_r, rev_involutive, string_app_nil_l.
  destruct (strings_Join_valid_head names Hne Hall) as [_ Hnz].
  by destruct (String.eqb_spec (strings_Join names "/") "").
Qed.

(** The directory of a single name is the dot. *)
Lemma filepath_Dir_name (name : string) :
  has_slash name = false -> filepath_Dir name = ".".
Proof.
  intros Hs. unfold filepath_Dir. by rewrite strings_Split_no_slash.
Qed.

(** A leading dot element disappears when the path is cleaned. *)
Lemma filepath_Clean_dot_name (name : string) :
  valid_name name -> filepath_Clean ("." +:+ "/" +:+ name) = name.
Proof.
  intros Hv. unfold filepath_Clean.
  change ("." +:+ "/" +:+ name) with ("." +:+ String "/" name).
  rewrite strings_Split_app. simpl.
  rewrite strings_Split_no_slash by (by apply valid_name_no_slash).
  simpl. rewrite clean_step_valid by done. simpl.
  rewrite string_app_nil_l.
  destruct Hv as (Hnz & _). by destruct (String.eqb_spec name "").
Qed.

Lemma strings_Split_singleton (s x : string) :
  strings_Split s "/" = [x] -> x = s.
Proof.
  revert x. induction s as [|c s IH]; intros x; simpl.
  - by intros [= <-].
  - destruct (Ascii.eqb c "/").
    + intros [= _ H]. by apply strings_Split_nonempty in H.
    + pose proof (strings_Split_nonempty s "/") as Hne.
      destruct (strings_Split s "/") as [|y ys]; [done|].
      intros [= <- ->]. by rewrite (IH y).
Qed.

Lemma strip_trailing_slashes_id (path : string) :
  List.last (strings_Split path "/") "" <> "" ->
  strip_trailing_slashes path = path.
Proof.
  induction path as [|c rest IH]; [done|].
  cbn [strings_Split strip_trailing_slashes]. unfold is_slash.
  pose proof (strings_Split_nonempty rest "/") as Hne.
  destruct (Ascii.eqb c "/").
  - destruct (strings_Split rest "/") as [|y ys] eqn:Hs; [done|].
    intros Hl. change (List.last (y :: ys) "" <> "") in Hl.
    rewrite (IH Hl). rewrite andb_true_r.
    destruct (String.eqb_spec rest "") as [->|]; [|done].
    simpl in Hs. injection Hs as <- <-. done.
  - rewrite andb_false_r.
    destruct (strings_Split rest "/") as [|y ys] eqn:Hs; [done|].
    destruct ys as [|z ys].
    + intros _. pose proof (strings_Split_singleton _ _ Hs) as ->.
      destruct (String.eqb_spec rest "") as [->|Hr]; [done|].
      by rewrite IH.
    + intros Hl. rewrite IH; done.
Qed.

(** On a path whose last element is not empty, [filepath.Base] is that
    element. *)
Lemma filepath_Base_last (path : string) :
  List.last (strings_Split path "/") "" <> "" ->
  filepath_Base path = List.last (strings_Split path "/") "".
Proof.
  intros Hl. unfold filepath_Base.
  rewrite (strip_trailing_slashes_id path Hl).
  destruct (String.eqb_spec path "") as [->|_]; [done|].
  by destruct (String.eqb_spec (List.last (strings_Split path "/") "") "").
Qed.

(** *** The walk *)

Section walk.

Variables (be : NameTransform) (os : OS).

(** The walk does not touch the cache. *)
Lemma walk_cache (plainNames : list string) (st : walk_state) (w : World) :
  DirIVCache (snd (walk be os plainNames st w)) = DirIVCache w.
Proof.
  revert st w. induction plainNames as [|n rest IH]; intros st w; [done|].
  destruct st as [[wd encs] i]. cbn [walk]. unfold bind.
  pose proof (ReadDirIV_cache os wd w) as Hc.
  destruct (ReadDirIV os wd w) as [[[i1 [e|]]|msg|code] w1]; simpl in *;
    try done.
  unfold lift. destruct (encryptName be n i1) as [e1|msg|code]; simpl;
    try done.
  by rewrite IH.
Qed.

(** The walk over [pre ++ post] is the walk over [pre], followed, unless
    it left early, by the walk over [post]. *)
Lemma walk_app (pre post : list string) (st : walk_state) (w : World) :
  walk be os (pre ++ post) st w
  = match walk be os pre st w with
    | (Returned (inr st'), w') => walk be os post st' w'
    | other => other
    end.
Proof.
  revert st w. induction pre as [|n pre IH]; intros st w; [done|].
  destruct st as [[wd encs] i]. cbn [walk app]. unfold bind.
  destruct (ReadDirIV os wd w) as [[[i1 [e|]]|msg|code] w1]; try done.
  unfold lift.
  destruct (encryptName be n i1) as [e1|msg|code]; [apply IH|done|done].
Qed.

(** What a completed walk has computed. *)
Lemma walk_completed (plainNames : list string) (wd0 : string)
    (encs0 : list string) (iv0 : list byte) (w : World)
    (wd : string) (encs : list string) (i : list byte) (w' : World) :
  encryptName_wf be ->
  walk be os plainNames (wd0, encs0, iv0) w
  = (Returned (inr (wd, encs, i)), w') ->
  exists encsN,
    encs = encs0 ++ encsN /\
    length encsN = length plainNames /\
    Forall valid_name encsN /\
    Forall (fun n => n <> "") plainNames /\
    (plainNames <> [] ->
     encryptName be (List.last plainNames "") i
     = Returned (List.last encsN "")).
Proof.
  intros [Hempty Hvalid].
  revert wd0 encs0 iv0 w.
  induction plainNames as [|n rest IH]; intros wd0 encs0 iv0 w.
  - intros [= <- <- <- <-]. exists []. by rewrite app_nil_r.
  - cbn [walk]. unfold bind.
    destruct (ReadDirIV os wd0 w) as [[[i1 [e|]]|msg|code] w1]; try done.
    unfold lift. destruct (encryptName be n i1) as [e1|msg|code] eqn:He1;
      try done.
    intros Hw. pose proof Hw as Hw'.
    apply IH in Hw as (encsN & -> & Hlen & Hv & Hn & Hlast).
    exists (e1 :: encsN). rewrite <- app_assoc. split; [done|].
    split; [simpl; by rewrite Hlen|].
    split; [constructor; [by eapply Hvalid|done]|].
    split.
    { constructor; [|done]. intros ->. by eapply Hempty. }
    intros _. destruct rest as [|m rest].
    + destruct encsN; [|done]. simpl in Hw'.
      unfold ret in Hw'. injection Hw' as _ _ <- _. done.
    + destruct encsN as [|e2 encsN]; [done|].
      change (List.last (n :: m :: rest) "") with (List.last (m :: rest) "").
      change (List.last (e1 :: e2 :: encsN) "")
        with (List.last (e2 :: encsN) "").
      by apply Hlast.
Qed.

End walk.

Lemma toy_be_wf : encryptName_wf toy_be.
Proof.
  split.
  - intros i e H. compute in H. discriminate.
  - intros n i e. simpl. unfold toy_encryptName.
    destruct (String.eqb_spec n "") as [|Hn]; [discriminate|].
    destruct (has_slash n) eqn:Hs; [discriminate|].
    intros [= <-]. change ("E" +:+ n) with (String "E" n).
    repeat split; try discriminate. exact Hs.
Qed.

(** Whatever [EncryptPathDirIV] does, an error result comes with the
    empty path and leaves the cache as it was; so does a panic. *)
Lemma EncryptPathDirIV_error_frame (be : NameTransform) (os : OS)
    (plainPath rootDir : string) (w w' : World) (o : outcome (string * option error)) :
  EncryptPathDirIV be os plainPath rootDir w = (o, w') ->
  (forall cipherPath, o <> Returned (cipherPath, None)) ->
  DirIVCache w' = DirIVCache w /\
  (forall cipherPath e, o = Returned (cipherPath, Some e) -> cipherPath = "").
Proof.
  unfold EncryptPathDirIV.
  destruct (String.eqb plainPath "").
  { intros [= <- <-] Hne. by destruct (Hne plainPath). }
  unfold bind, get_DirIVCache, set_DirIVCache, ret, lift. simpl.
  destruct (lookup (DirIVCache w) (filepath_Dir plainPath))
    as [[[|] i] cParentDir].
  - destruct (encryptName be _ i); intros [= <- <-] Hne;
      (split; [done|]); intros ? ? [=].
  - pose proof (walk_cache be os (strings_Split plainPath "/")
                  (rootDir, [], i) w) as Hc.
    destruct (walk be os _ _ w) as [[[e|[[wd encs] i']]|msg|code] w1];
      simpl in *; intros [= <- <-] Hne.
    + split; [done|]. by intros ? ? [= <- _].
    + by edestruct Hne.
    + split; [done|]. by intros ? ? [=].
    + split; [done|]. by intros ? ? [=].
Qed.

(** C9. Cache unchanged on failed walk: if the cache misses, the walk of
    [EncryptPathDirIV] has completed the path elements [pre], and the
    next [ReadDirIV] call returns an error, then [EncryptPathDirIV]
    returns the empty string together with that error, and the
    DirIVCache is exactly what it was before the call. *)
Theorem EncryptPathDirIV_failed_walk (be : NameTransform) (os : OS)
    (plainPath rootDir : string) (w : World)
    (pre : list string) (plainName : string) (post : list string)
    (wd : string) (encs : list string) (iv0 : list byte) (w1 : World)
    (iv1 : list byte) (e : error) (w2 : World) :
  plainPath <> "" ->
  lookup (DirIVCache w) (filepath_Dir plainPath) = (false, [], "") ->
  strings_Split plainPath "/" = pre ++ plainName :: post ->
  walk be os pre (rootDir, [], []) w = (Returned (inr (wd, encs, iv0)), w1) ->
  ReadDirIV os wd w1 = (Returned (iv1, Some e), w2) ->
  EncryptPathDirIV be os plainPath rootDir w = (Returned ("", Some e), w2)
  /\ DirIVCache w2 = DirIVCache w.
Proof.
  intros Hne Hmiss Hsplit Hpre Hread.
  assert (Hrun : EncryptPathDirIV be os plainPath rootDir w
                 = (Returned ("", Some e), w2)).
  { unfold EncryptPathDirIV.
    destruct (String.eqb_spec plainPath ""); [done|].
    unfold bind at 1. unfold get_DirIVCache at 1. rewrite Hmiss.
    unfold bind at 1. rewrite Hsplit, walk_app, Hpre.
    cbn [walk]. unfold bind at 1. by rewrite Hread. }
  split; [done|].
  eapply EncryptPathDirIV_error_frame; [exact Hrun|done].
Qed.

Lemma EncryptPathDirIV_failed_walk_witness :
  exists e w2,
    EncryptPathDirIV toy_be toy_os "a/b/c" "/c" world0
    = (Returned ("", Some e), w2)
    /\ e = errorString ("ReadDirIV: Invalid length 3" +:+ newline)
    /\ DirIVCache w2 = DirIVCache world0.
Proof.
  eexists _, _.
  assert (forall (A B C : Prop), A /\ C -> B -> A /\ B /\ C) as Hshuffle
    by tauto.
  apply Hshuffle; [|reflexivity].
  eapply (EncryptPathDirIV_failed_walk toy_be toy_os "a/b/c" "/c" world0
            ["a"; "b"] "c" []).
  - discriminate.
  - reflexivity.
  - reflexivity.
  - reflexivity.
  - reflexivity.
Defined.




(** * Further properties of the code *)

(** ** Padding *)

Lemma byte_of_int_of_byte (b : byte) : byte_of_int (int_of_byte b) = b.
Proof.
  pose proof (int_of_byte_range b) as Hr.
  unfold byte_of_int. rewrite Z.mod_small by lia.
  unfold int_of_byte. rewrite N2Z.id. by rewrite Byte.of_to_N.
Qed.

Lemma last_app_replicate (plain : list byte) (n : nat) (x : byte) :
  (0 < n)%nat -> last (plain ++ replicate n x) = Some x.
Proof.
  intros Hn. destruct n as [|n]; [lia|].
  rewrite replicate_S_end, app_assoc. apply last_snoc.
Qed.

(** PKCS#7 shape of the padding: [pad16] panics on the empty input and on
    no other; on a non-empty input it appends [padLen] bytes of value
    [padLen], where [padLen = 16 - len % 16] lies in [1, 16] (a whole
    block of sixteen bytes 0x10 when the input is block-aligned), and the
    input is a prefix of the result. *)
Theorem pad16_pkcs7 (orig : list byte) :
  (orig = [] ->
   pad16 orig = Panicked "Padding zero-length string makes no sense") /\
  (orig <> [] ->
   exists padLen,
     padLen = 16 - len orig mod 16 /\
     1 <= padLen <= 16 /\
     (len orig mod 16 = 0 -> padLen = 16) /\
     int_of_byte (byte_of_int padLen) = padLen /\
     pad16 orig
     = Returned (orig ++ replicate (Z.to_nat padLen) (byte_of_int padLen))).
Proof.
  split; [by intros ->|]. intros Hne.
  pose proof (len_nonneg orig) as Hge.
  pose proof (padLen_range (len orig) Hge) as Hp.
  pose proof (pad16_spec orig Hne) as Hs. cbv zeta in Hs.
  unfold aes_BlockSize in *. rewrite Z.rem_mod_nonneg in * by lia.
  exists (16 - len orig mod 16).
  split; [done|]. split; [done|]. split; [lia|].
  split; [apply int_of_byte_of_int; lia|done].
Qed.

Lemma pad16_pkcs7_witness :
  pad16 (replicate 16 x61)
  = Returned (replicate 16 x61 ++ replicate 16 x10).
Proof.
  destruct (pad16_pkcs7 (replicate 16 x61)) as [_ H].
  destruct H as (padLen & -> & _ & _ & _ & ->); [discriminate|].
  reflexivity.
Defined.

(** What [unPad16] has accepted is a non-empty plaintext followed by [p]
    bytes of value [p], for some [p] in [1, 16]. *)
Lemma unPad16_accepted_shape (padded plain : list byte) :
  unPad16 padded = Returned (plain, None) ->
  plain <> [] /\
  exists p, 1 <= p <= 16 /\ Z.rem (len padded) 16 = 0 /\
            padded = plain ++ replicate (Z.to_nat p) (byte_of_int p).
Proof.
  intros Hr. destruct (last padded) as [padByte|] eqn:Hl.
  2: { apply last_None in Hl. subst padded. discriminate. }
  destruct (unPad16_nonempty _ _ Hl)
    as [(Hok & Hrem & Hp & Hall & Hlt)|([e He] & _)].
  2: { rewrite He in Hr. discriminate. }
  rewrite Hok in Hr. injection Hr as <-.
  set (p := int_of_byte padByte) in *.
  set (k := Z.to_nat (len padded - p)) in *.
  assert (Hk : (k < length padded)%nat) by (unfold k, len in *; lia).
  split.
  { intros Hnil. apply (f_equal length) in Hnil.
    rewrite length_take in Hnil. simpl in Hnil. unfold k, len in *. lia. }
  exists p. split; [done|]. split; [done|].
  rewrite <- (take_drop k padded) at 1. f_equal.
  symmetry. unfold p at 2. rewrite byte_of_int_of_byte.
  apply replicate_as_Forall. split.
  - rewrite length_drop. unfold k, len in *. lia.
  - eapply Forall_impl; [exact Hall|]. by intros x ->.
Qed.

(** [unPad16] accepts exactly the PKCS#7 paddings of non-empty strings:
    it returns [(plain, nil)] if and only if [plain] is non-empty and the
    input is [plain] followed by [p] bytes of value [p] for some [p] in
    [1, 16] that makes the length a multiple of 16. *)
Theorem unPad16_accepts_iff (padded plain : list byte) :
  unPad16 padded = Returned (plain, None)
  <->
  plain <> [] /\
  exists p, 1 <= p <= 16 /\ Z.rem (len padded) 16 = 0 /\
            padded = plain ++ replicate (Z.to_nat p) (byte_of_int p).
Proof.
  split; [apply unPad16_accepted_shape|].
  intros (Hne & p & Hp & Hrem & ->).
  set (padByte := byte_of_int p) in *.
  assert (Hint : int_of_byte padByte = p)
    by (apply int_of_byte_of_int; lia).
  assert (Hlen : len (plain ++ replicate (Z.to_nat p) padByte)
                 = len plain + p).
  { rewrite len_app. unfold len at 2. rewrite length_replicate. lia. }
  assert (Hpl : 0 < len plain).
  { pose proof (len_nonneg plain).
    assert (len plain <> 0) by (by rewrite len_nil_iff). lia. }
  assert (Hlast : last (plain ++ replicate (Z.to_nat p) padByte)
                  = Some padByte) by (apply last_app_replicate; lia).
  destruct (unPad16_nonempty _ _ Hlast) as [(Hr & _)|(_ & Hbad)].
  - rewrite Hr, Hlen, Hint. do 2 f_equal.
    replace (Z.to_nat (len plain + p - p)) with (length plain)
      by (unfold len; lia).
    apply take_app_length.
  - exfalso. rewrite Hlen, Hint in Hbad.
    destruct Hbad as [Hb|[Hb|[Hb|Hb]]]; [by rewrite Hlen in Hrem|lia| |lia].
    apply Hb.
    replace (Z.to_nat (len plain + p - p)) with (length plain)
      by (unfold len; lia).
    rewrite drop_app_length. by apply Forall_replicate.
Qed.

(** [pad16] undoes [unPad16]: whatever [unPad16] accepts is the padding
    that [pad16] computes for the returned plaintext. *)
Theorem pad16_after_unPad16 (padded plain : list byte) :
  unPad16 padded = Returned (plain, None) ->
  pad16 plain = Returned padded.
Proof.
  intros Hr. apply unPad16_accepted_shape in Hr as (Hne & p & Hp & Hrem & ->).
  rewrite pad16_spec by done.
  pose proof (len_nonneg plain) as Hge.
  rewrite len_app in Hrem. unfold len at 2 in Hrem.
  rewrite length_replicate, Z2Nat.id in Hrem by lia.
  unfold aes_BlockSize.
  rewrite !Z.rem_mod_nonneg in * by lia.
  assert (Heq : 16 - len plain mod 16 = p).
  { pose proof (Z.mod_pos_bound (len plain) 16 ltac:(lia)) as Hb.
    apply Z.mod_divide in Hrem; [|lia]. destruct Hrem as [q Hq].
    pose proof (Z.div_mod (len plain) 16 ltac:(lia)) as Hdm.
    assert (Hdiv : (16 | len plain mod 16 + p)).
    { exists (q - len plain / 16). lia. }
    destruct Hdiv as [j Hj].
    assert (j = 1) by nia. lia. }
  by rewrite Heq.
Qed.

Lemma pad16_after_unPad16_witness :
  unPad16 (replicate 15 x61 ++ [x01]) = Returned (replicate 15 x61, None) /\
  pad16 (replicate 15 x61) = Returned (replicate 15 x61 ++ [x01]).
Proof.
  split; [reflexivity|].
  apply (pad16_after_unPad16 (replicate 15 x61 ++ [x01])). reflexivity.
Defined.

(** On a non-empty input every index and slice expression of [unPad16]
    is in range: the call returns, and it returns either a plaintext with
    the nil error or the nil slice with an error. *)
Theorem unPad16_nonempty_total (padded : list byte) :
  padded <> [] ->
  (exists plain, unPad16 padded = Returned (plain, None)) \/
  (exists e, unPad16 padded = Returned ([], Some e)).
Proof.
  intros Hne. destruct (last padded) as [padByte|] eqn:Hl.
  - destruct (unPad16_nonempty _ _ Hl) as [(Hr & _)|(He & _)];
      [left; by eexists|by right].
  - by apply last_None in Hl.
Qed.

Lemma unPad16_nonempty_total_witness :
  (exists plain, unPad16 [x00] = Returned (plain, None)) \/
  (exists e, unPad16 [x00] = Returned ([], Some e)).
Proof. apply (unPad16_nonempty_total [x00]). discriminate. Defined.

(** ** Computations that do not touch the cache *)

Lemma World_eta (w : World) :
  {| DirIVCache := DirIVCache w; trace := trace w ++ [] |} = w.
Proof. destruct w. simpl. by rewrite app_nil_r. Qed.

Lemma pure_run_ret {A} (a : A) : pure_run (ret a) (Returned a) [].
Proof. intros w. unfold ret. by rewrite World_eta. Qed.

Lemma pure_run_lift {A} (o : outcome A) : pure_run (lift o) o [].
Proof. intros w. unfold lift. by rewrite World_eta. Qed.

Lemma pure_run_emit (ev : event) : pure_run (emit ev) (Returned tt) [ev].
Proof. intros w. reflexivity. Qed.

Lemma pure_run_bind {A B} (m : M A) (k : A -> M B) (a : A)
    (t1 t2 : list event) (o : outcome B) :
  pure_run m (Returned a) t1 -> pure_run (k a) o t2 ->
  pure_run (bind m k) o (t1 ++ t2).
Proof.
  intros Hm Hk w. unfold bind. rewrite Hm, Hk. simpl.
  by rewrite app_assoc.
Qed.

Lemma pure_run_bind_stop {A B} (m : M A) (k : A -> M B) (t : list event)
    (o : outcome A) (o' : outcome B) :
  pure_run m o t ->
  match o with
  | Returned _ => False
  | Panicked msg => o' = Panicked msg
  | Exited code => o' = Exited code
  end ->
  pure_run (bind m k) o' t.
Proof.
  intros Hm Ho w. unfold bind. rewrite Hm.
  destruct o; [done|by subst..].
Qed.

Lemma pure_run_det {A} (m : M A) (o o' : outcome A) (t t' : list event) :
  pure_run m o t -> pure_run m o' t' -> o = o' /\ t = t'.
Proof.
  intros H H'.
  specialize (H {| DirIVCache := dirIVCache_zero; trace := [] |}).
  specialize (H' {| DirIVCache := dirIVCache_zero; trace := [] |}).
  rewrite H in H'. simpl in H'. by injection H' as -> ->.
Qed.

(** [ReadDirIV] is such a computation: it reads one file, the
    [gocryptfs.diriv] of the directory, and when it succeeds it has done
    nothing else but log. *)
Lemma ReadDirIV_pure (os : OS) (d : string) :
  exists o t,
    pure_run (ReadDirIV os d) o t /\
    files_read t = [filepath_Join [d; DirIVFilename]] /\
    (forall i, o = Returned (i, None) ->
       t = [EvDebug ("ReadDirIV: reading %s" +:+ newline);
            EvReadFile (filepath_Join [d; DirIVFilename])]).
Proof.
  unfold ReadDirIV.
  set (ivfile := filepath_Join [d; DirIVFilename]).
  destruct (ReadFile os ivfile) as [data [e|]] eqn:Hread.
  - destruct (os_IsNotExist (Stat os d)) eqn:Hstat.
    + exists (Returned ([], Some e)),
        [EvDebug ("ReadDirIV: reading %s" +:+ newline); EvReadFile ivfile; EvStat d;
         EvDebug "ReadDirIV: Dir %s was deleted under our feet"].
      split; [|split; [done|done]].
      intros w. unfold bind, Debug_Printf, emit, ret. simpl.
      by rewrite <- !app_assoc.
    + unfold Warn_Printf.
      destruct (Warn_PanicAfter os) eqn:Hp; eexists _,
        [EvDebug ("ReadDirIV: reading %s" +:+ newline); EvReadFile ivfile; EvStat d;
         EvWarn ("ReadDirIV: Dir exists but diriv does not: %v" +:+ newline)];
        (split; [|split; [done|]]).
      * intros w. unfold bind, Debug_Printf, emit, ret, lift. simpl.
        rewrite <- !app_assoc. reflexivity.
      * done.
      * intros w. unfold bind, Debug_Printf, emit, ret, lift. simpl.
        rewrite <- !app_assoc. reflexivity.
      * done.
  - destruct (negb (len data =? dirIVLen)); eexists _,
      [EvDebug ("ReadDirIV: reading %s" +:+ newline); EvReadFile ivfile];
      (split; [|split; [done|done]]);
      intros w; unfold bind, Debug_Printf, emit, ret; simpl;
      by rewrite <- !app_assoc.
Qed.

(** ** ReadDirIV when the file cannot be read *)

(** When [gocryptfs.diriv] cannot be read, [ReadDirIV] passes the read
    error on and drops whatever data came with it; it stats the
    directory; if the directory is gone it only writes a debug line, so
    the call returns even under -wpanic; if the directory is still there
    it warns, and the call panics exactly when -wpanic is set. *)
Theorem ReadDirIV_unreadable (os : OS) (d : string) (data : list byte)
    (e : error) :
  ReadFile os (filepath_Join [d; DirIVFilename]) = (data, Some e) ->
  exists o t,
    pure_run (ReadDirIV os d) o t /\
    In (EvStat d) t /\
    (os_IsNotExist (Stat os d) = true ->
       o = Returned ([], Some e) /\ forallb (fun ev => negb (is_warning ev)) t = true) /\
    (os_IsNotExist (Stat os d) = false ->
       existsb is_warning t = true /\
       (Warn_PanicAfter os = false -> o = Returned ([], Some e)) /\
       (Warn_PanicAfter os = true -> exists msg, o = Panicked msg)).
Proof.
  intros Hread. unfold ReadDirIV. rewrite Hread.
  destruct (os_IsNotExist (Stat os d)) eqn:Hstat.
  - exists (Returned ([], Some e)),
      [EvDebug ("ReadDirIV: reading %s" +:+ newline);
       EvReadFile (filepath_Join [d; DirIVFilename]); EvStat d;
       EvDebug "ReadDirIV: Dir %s was deleted under our feet"].
    split; [|split; [simpl; tauto|split; [done|done]]].
    intros w. unfold bind, Debug_Printf, emit, ret. simpl.
    by rewrite <- !app_assoc.
  - unfold Warn_Printf.
    destruct (Warn_PanicAfter os) eqn:Hp; eexists _,
      [EvDebug ("ReadDirIV: reading %s" +:+ newline);
       EvReadFile (filepath_Join [d; DirIVFilename]); EvStat d;
       EvWarn ("ReadDirIV: Dir exists but diriv does not: %v" +:+ newline)];
      (split; [|split; [simpl; tauto|split; [done|]]]).
    + intros w. unfold bind, Debug_Printf, emit, ret, lift. simpl.
      rewrite <- !app_assoc. reflexivity.
    + intros _. split; [done|]. split; [done|]. intros _. by eexists.
    + intros w. unfold bind, Debug_Printf, emit, ret, lift. simpl.
      rewrite <- !app_assoc. reflexivity.
    + intros _. split; [done|]. split; [done|]. done.
Qed.

Lemma ReadDirIV_unreadable_witness :
  exists o t,
    pure_run (ReadDirIV toy_os "/c/Ex") o t /\
    In (EvStat "/c/Ex") t /\
    (os_IsNotExist (Stat toy_os "/c/Ex") = true ->
       o = Returned ([], Some (PathError "open" "/c/Ex/gocryptfs.diriv" ENOENT))
       /\ forallb (fun ev => negb (is_warning ev)) t = true) /\
    (os_IsNotExist (Stat toy_os "/c/Ex") = false ->
       existsb is_warning t = true /\
       (Warn_PanicAfter toy_os = false ->
          o = Returned ([], Some (PathError "open" "/c/Ex/gocryptfs.diriv"
                                    ENOENT))) /\
       (Warn_PanicAfter toy_os = true -> exists msg, o = Panicked msg)).
Proof.
  apply (ReadDirIV_unreadable toy_os "/c/Ex" []). reflexivity.
Defined.

(** ** The walks as computations that do not touch the cache *)

Lemma ReadDirIV_as_pure (os : OS) (d : string) (w w' : World)
    (o : outcome (list byte * option error)) :
  ReadDirIV os d w = (o, w') ->
  exists t, pure_run (ReadDirIV os d) o t /\
            files_read t = [filepath_Join [d; DirIVFilename]] /\
            (forall i, o = Returned (i, None) -> Forall is_routine t).
Proof.
  intros Hrun. destruct (ReadDirIV_pure os d) as (o' & t & Hp & Hf & Hs).
  rewrite Hp in Hrun. injection Hrun as <- _.
  exists t. split; [done|]. split; [done|].
  intros i Hi. rewrite (Hs i Hi). repeat constructor.
Qed.

Section walks.

Variables (be : NameTransform) (de : NameDecrypter) (os : OS).

(** The encrypting walk: outcome and events do not depend on the state,
    and a completed walk has read one [gocryptfs.diriv] per path element,
    the first one in the directory it started from, and nothing failed on
    the way. *)
Lemma walk_pure (plainNames : list string) (st : walk_state) :
  exists o t,
    pure_run (walk be os plainNames st) o t /\
    (plainNames <> [] ->
     files_read t !! 0%nat
     = Some (filepath_Join [fst (fst st); DirIVFilename])) /\
    (forall st', o = Returned (inr st') ->
       length (files_read t) = length plainNames /\ Forall is_routine t).
Proof.
  revert st. induction plainNames as [|n rest IH]; intros [[wd encs] i].
  - exists (Returned (inr (wd, encs, i))), []. split; [apply pure_run_ret|].
    split; [done|]. intros _ _. by split.
  - cbn [walk].
    destruct (ReadDirIV_pure os wd) as (o1 & t1 & H1 & Hf1 & Hs1).
    destruct o1 as [[i1 [e|]]|msg|code].
    + exists (Returned (inl e)), (t1 ++ []).
      split; [eapply pure_run_bind; [exact H1|apply pure_run_ret]|].
      rewrite app_nil_r, Hf1. split; [done|]. by intros st' [=].
    + destruct (encryptName be n i1) as [e1|msg|code] eqn:He1.
      * destruct (IH (filepath_Join [wd; e1], encs ++ [e1], i1))
          as (o2 & t2 & H2 & _ & Hs2).
        exists o2, (t1 ++ ([] ++ t2)). split.
        { eapply pure_run_bind; [exact H1|]. cbv beta iota. rewrite He1.
          eapply pure_run_bind; [apply pure_run_lift|exact H2]. }
        unfold files_read in *. rewrite omap_app, Hf1.
        split; [done|].
        intros st' Hst. destruct (Hs2 st' Hst) as [Hl Hr].
        split; [simpl; by rewrite Hl|].
        apply Forall_app. split; [|done].
        rewrite (Hs1 i1 eq_refl). repeat constructor.
      * exists (Panicked msg), (t1 ++ []). split.
        { eapply pure_run_bind; [exact H1|]. cbv beta iota. rewrite He1.
          eapply pure_run_bind_stop; [apply pure_run_lift|done]. }
        rewrite app_nil_r, Hf1. split; [done|]. by intros st' [=].
      * exists (Exited code), (t1 ++ []). split.
        { eapply pure_run_bind; [exact H1|]. cbv beta iota. rewrite He1.
          eapply pure_run_bind_stop; [apply pure_run_lift|done]. }
        rewrite app_nil_r, Hf1. split; [done|]. by intros st' [=].
    + exists (Panicked msg), t1.
      split; [eapply pure_run_bind_stop; [exact H1|done]|].
      rewrite Hf1. split; [done|]. by intros st' [=].
    + exists (Exited code), t1.
      split; [eapply pure_run_bind_stop; [exact H1|done]|].
      rewrite Hf1. split; [done|]. by intros st' [=].
Qed.

(** The decrypting walk does not touch the cache either. *)
Lemma dwalk_pure (encryptedNames : list string) (st : dwalk_state) :
  exists o t, pure_run (dwalk de os encryptedNames st) o t.
Proof.
  revert st. induction encryptedNames as [|n rest IH]; intros [wd pl].
  - exists (Returned (inr (wd, pl))), []. apply pure_run_ret.
  - cbn [dwalk].
    destruct (ReadDirIV_pure os wd) as (o1 & t1 & H1 & _ & _).
    destruct o1 as [[i1 [e|]]|msg|code].
    + exists (Returned (inl e)), (t1 ++ []).
      eapply pure_run_bind; [exact H1|apply pure_run_ret].
    + destruct (DecryptName de n i1) as [[pn [e|]]|msg|code] eqn:Hd.
      * exists (Returned (inl e)), (t1 ++ ([] ++ [])).
        eapply pure_run_bind; [exact H1|]. cbv beta iota. rewrite Hd.
        eapply pure_run_bind; [apply pure_run_lift|apply pure_run_ret].
      * destruct (IH (filepath_Join [wd; n], pl ++ [pn])) as (o2 & t2 & H2).
        exists o2, (t1 ++ ([] ++ t2)).
        eapply pure_run_bind; [exact H1|]. cbv beta iota. rewrite Hd.
        eapply pure_run_bind; [apply pure_run_lift|exact H2].
      * exists (Panicked msg), (t1 ++ []).
        eapply pure_run_bind; [exact H1|]. cbv beta iota. rewrite Hd.
        eapply pure_run_bind_stop; [apply pure_run_lift|done].
      * exists (Exited code), (t1 ++ []).
        eapply pure_run_bind; [exact H1|]. cbv beta iota. rewrite Hd.
        eapply pure_run_bind_stop; [apply pure_run_lift|done].
    + exists (Panicked msg), t1.
      eapply pure_run_bind_stop; [exact H1|done].
    + exists (Exited code), t1.
      eapply pure_run_bind_stop; [exact H1|done].
Qed.

End walks.

(** ** DecryptPathDirIV *)

(** [DecryptPathDirIV] neither consults nor changes the DirIVCache: its
    outcome and the calls it makes are the same in every state, and the
    cache after the call is the cache before it.  When it returns an
    error, the path it returns is empty. *)
Theorem DecryptPathDirIV_cache_free (de : NameDecrypter) (os : OS)
    (encryptedPath rootDir : string) (eme : bool) :
  exists o t,
    pure_run (DecryptPathDirIV de os encryptedPath rootDir eme) o t /\
    (forall path e, o = Returned (path, Some e) -> path = "").
Proof.
  unfold DecryptPathDirIV.
  destruct (dwalk_pure de os (strings_Split encryptedPath "/") (rootDir, []))
    as (o & t & Hp).
  destruct o as [[e|[wd pl]]|msg|code].
  - exists (Returned ("", Some e)),
      ([EvDebug ("DecryptPathDirIV: decrypting %v" +:+ newline)] ++ (t ++ [])).
    split; [|by intros ? ? [= <- _]].
    eapply pure_run_bind; [apply pure_run_emit|].
    eapply pure_run_bind; [exact Hp|apply pure_run_ret].
  - exists (Returned (filepath_Join pl, None)),
      ([EvDebug ("DecryptPathDirIV: decrypting %v" +:+ newline)] ++ (t ++ [])).
    split; [|by intros ? ? [=]].
    eapply pure_run_bind; [apply pure_run_emit|].
    eapply pure_run_bind; [exact Hp|apply pure_run_ret].
  - exists (Panicked msg), ([EvDebug ("DecryptPathDirIV: decrypting %v" +:+ newline)] ++ t).
    split; [|by intros ? ? [=]].
    eapply pure_run_bind; [apply pure_run_emit|].
    eapply pure_run_bind_stop; [exact Hp|done].
  - exists (Exited code), ([EvDebug ("DecryptPathDirIV: decrypting %v" +:+ newline)] ++ t).
    split; [|by intros ? ? [=]].
    eapply pure_run_bind; [apply pure_run_emit|].
    eapply pure_run_bind_stop; [exact Hp|done].
Qed.

(** The root path is no special case for [DecryptPathDirIV]: on the empty
    path it reads the [gocryptfs.diriv] of rootDir (and no other file),
    and it succeeds only if [DecryptName] accepts the empty name. *)
Theorem DecryptPathDirIV_root (de : NameDecrypter) (os : OS)
    (rootDir : string) (eme : bool) :
  exists o t,
    pure_run (DecryptPathDirIV de os "" rootDir eme) o t /\
    files_read t = [filepath_Join [rootDir; DirIVFilename]] /\
    (forall path, o = Returned (path, None) ->
       exists i plainName,
         DecryptName de "" i = Returned (plainName, None) /\
         path = filepath_Join [plainName]).
Proof.
  unfold DecryptPathDirIV. cbn [strings_Split dwalk].
  destruct (ReadDirIV_pure os rootDir) as (o1 & t1 & H1 & Hf1 & _).
  assert (Hfr : forall t', files_read t' = [] ->
            files_read ([EvDebug ("DecryptPathDirIV: decrypting %v" +:+ newline)]
                        ++ (t1 ++ t') ++ [])
            = [filepath_Join [rootDir; DirIVFilename]]).
  { intros t' Ht'. unfold files_read in *.
    rewrite !omap_app, Hf1, Ht'. done. }
  destruct o1 as [[i1 [e|]]|msg|code].
  - eexists _, _. split.
    { eapply pure_run_bind; [apply pure_run_emit|].
      eapply pure_run_bind.
      - eapply pure_run_bind; [exact H1|apply pure_run_ret].
      - apply pure_run_ret. }
    split; [by apply Hfr|]. by intros ? [=].
  - destruct (DecryptName de "" i1) as [[pn [e|]]|msg|code] eqn:Hd.
    + eexists _, _. split.
      { eapply pure_run_bind; [apply pure_run_emit|].
        eapply pure_run_bind.
        - eapply pure_run_bind; [exact H1|]. cbv beta iota. rewrite Hd.
          eapply pure_run_bind; [apply pure_run_lift|apply pure_run_ret].
        - apply pure_run_ret. }
      split; [by apply Hfr|]. by intros ? [=].
    + eexists _, _. split.
      { eapply pure_run_bind; [apply pure_run_emit|].
        eapply pure_run_bind.
        - eapply pure_run_bind; [exact H1|]. cbv beta iota. rewrite Hd.
          eapply pure_run_bind; [apply pure_run_lift|apply pure_run_ret].
        - apply pure_run_ret. }
      split; [by apply Hfr|]. intros ? [= <-]. by exists i1, pn.
    + exists (Panicked msg),
        ([EvDebug ("DecryptPathDirIV: decrypting %v" +:+ newline)] ++ (t1 ++ [])).
      split.
      { eapply pure_run_bind; [apply pure_run_emit|].
        eapply pure_run_bind_stop.
        - eapply pure_run_bind; [exact H1|]. cbv beta iota. rewrite Hd.
          eapply pure_run_bind_stop; [apply pure_run_lift|done].
        - done. }
      split; [|by intros ? [=]].
      unfold files_read in *. rewrite !omap_app, Hf1. done.
    + exists (Exited code),
        ([EvDebug ("DecryptPathDirIV: decrypting %v" +:+ newline)] ++ (t1 ++ [])).
      split.
      { eapply pure_run_bind; [apply pure_run_emit|].
        eapply pure_run_bind_stop.
        - eapply pure_run_bind; [exact H1|]. cbv beta iota. rewrite Hd.
          eapply pure_run_bind_stop; [apply pure_run_lift|done].
        - done. }
      split; [|by intros ? [=]].
      unfold files_read in *. rewrite !omap_app, Hf1. done.
  - exists (Panicked msg), ([EvDebug ("DecryptPathDirIV: decrypting %v" +:+ newline)] ++ t1).
    split.
    { eapply pure_run_bind; [apply pure_run_emit|].
      eapply pure_run_bind_stop.
      - eapply pure_run_bind_stop; [exact H1|done].
      - done. }
    split; [|by intros ? [=]].
    unfold files_read in *. rewrite !omap_app, Hf1. done.
  - exists (Exited code), ([EvDebug ("DecryptPathDirIV: decrypting %v" +:+ newline)] ++ t1).
    split.
    { eapply pure_run_bind; [apply pure_run_emit|].
      eapply pure_run_bind_stop.
      - eapply pure_run_bind_stop; [exact H1|done].
      - done. }
    split; [|by intros ? [=]].
    unfold files_read in *. rewrite !omap_app, Hf1. done.
Qed.

Lemma strings_Join_Split (s : string) :
  strings_Join (strings_Split s "/") "/" = s.
Proof.
  induction s as [|c s IH]; [done|]. cbn [strings_Split].
  pose proof (strings_Split_nonempty s "/") as Hne.
  destruct (Ascii.eqb_spec c "/") as [->|_].
  - rewrite strings_Join_cons by done. by rewrite IH.
  - destruct (strings_Split s "/") as [|x xs]; [done|].
    destruct xs as [|y ys].
    + simpl in IH. simpl. by rewrite IH.
    + rewrite strings_Join_cons by done.
      rewrite strings_Join_cons in IH by done.
      change (String c x +:+ String "/" (strings_Join (y :: ys) "/"))
        with (String c (x +:+ String "/" (strings_Join (y :: ys) "/"))).
      by rewrite IH.
Qed.

Section roundtrip.

Variables (be : NameTransform) (de : NameDecrypter) (os : OS).
Hypothesis Hdec : decrypts be de.

(** The decrypting walk over the names that an encrypting walk produced
    visits the same directories and gives the plaintext names back. *)
Lemma walk_dwalk (plainNames : list string) (wd : string)
    (encs0 : list string) (iv0 : list byte) (w : World)
    (wd' : string) (encs : list string) (i : list byte) (w' : World) :
  walk be os plainNames (wd, encs0, iv0) w
  = (Returned (inr (wd', encs, i)), w') ->
  exists encsN,
    encs = encs0 ++ encsN /\
    forall pl0, exists t,
      pure_run (dwalk de os encsN (wd, pl0))
        (Returned (inr (wd', pl0 ++ plainNames))) t.
Proof.
  revert wd encs0 iv0 w.
  induction plainNames as [|n rest IH]; intros wd encs0 iv0 w.
  - intros [= <- <- <- <-]. exists []. rewrite app_nil_r. split; [done|].
    intros pl0. exists []. rewrite app_nil_r. apply pure_run_ret.
  - cbn [walk]. unfold bind at 1.
    destruct (ReadDirIV os wd w) as [o1 w1] eqn:Hr.
    destruct (ReadDirIV_as_pure _ _ _ _ _ Hr) as (t1 & Hp1 & _).
    destruct o1 as [[i1 [e|]]|msg|code]; try done.
    unfold bind at 1, lift at 1.
    destruct (encryptName be n i1) as [e1|msg|code] eqn:He1; try done.
    intros Hw. apply IH in Hw as (encsN & -> & Hd).
    exists (e1 :: encsN). rewrite <- app_assoc. split; [done|].
    intros pl0. destruct (Hd (pl0 ++ [n])) as (t2 & Hp2).
    rewrite <- app_assoc in Hp2.
    exists (t1 ++ ([] ++ t2)). cbn [dwalk].
    eapply pure_run_bind; [exact Hp1|]. cbv beta iota.
    rewrite (Hdec _ _ _ He1).
    eapply pure_run_bind; [apply pure_run_lift|exact Hp2].
Qed.

(** Path round trip: if [DecryptName] undoes [encryptName], then
    [DecryptPathDirIV] of the cipherPath that a walk of
    [EncryptPathDirIV] returned gives the plainPath back, cleaned by
    [filepath.Join] (and unchanged when plainPath consists of valid
    names); the cache is not touched. *)
Theorem DecryptPathDirIV_inverts_walk (plainPath rootDir : string)
    (w0 w1 : World) (cipherPath : string) (eme : bool) :
  encryptName_wf be ->
  plainPath <> "" ->
  lookup (DirIVCache w0) (filepath_Dir plainPath) = (false, [], "") ->
  EncryptPathDirIV be os plainPath rootDir w0
  = (Returned (cipherPath, None), w1) ->
  (exists t,
     pure_run (DecryptPathDirIV de os cipherPath rootDir eme)
       (Returned (filepath_Clean plainPath, None)) t) /\
  (Forall valid_name (strings_Split plainPath "/") ->
   filepath_Clean plainPath = plainPath).
Proof.
  intros Hwf Hne Hmiss Hrun.
  unfold EncryptPathDirIV in Hrun.
  destruct (String.eqb_spec plainPath "") as [|_]; [done|].
  unfold bind at 1 in Hrun. unfold get_DirIVCache at 1 in Hrun.
  rewrite Hmiss in Hrun. unfold bind at 1 in Hrun.
  destruct (walk be os (strings_Split plainPath "/") (rootDir, [], []) w0)
    as [[[e|[[wd encs] lastIV]]|msg|code] wA] eqn:Hwalk; try done.
  injection Hrun as <- <-.
  destruct (walk_completed be os _ _ _ _ _ _ _ _ _ Hwf Hwalk)
    as (encsN & Hencs & Hlen & Hvalid & Hnames & _).
  simpl in Hencs. subst encsN.
  destruct (walk_dwalk _ _ _ _ _ _ _ _ _ Hwalk) as (encsN & Hencs & Hd).
  simpl in Hencs. subst encsN.
  pose proof (strings_Split_nonempty plainPath "/") as Hsplit.
  assert (Hencs : encs <> []) by (destruct encs, (strings_Split _ _); done).
  split.
  - destruct (Hd []) as (t & Hp). simpl in Hp.
    exists ([EvDebug ("DecryptPathDirIV: decrypting %v" +:+ newline)] ++ (t ++ [])).
    unfold DecryptPathDirIV.
    rewrite strings_Split_Join.
    2: done.
    2: { eapply Forall_impl; [exact Hvalid|]. apply valid_name_no_slash. }
    eapply pure_run_bind; [apply pure_run_emit|].
    eapply pure_run_bind; [exact Hp|]. cbv beta iota.
    assert (Hj : filepath_Join (strings_Split plainPath "/")
                 = filepath_Clean plainPath).
    { destruct (strings_Split plainPath "/") as [|n ns] eqn:Hs; [done|].
      apply Forall_inv in Hnames. cbn [filepath_Join].
      destruct (String.eqb_spec n ""); [done|].
      by rewrite <- Hs, strings_Join_Split. }
    rewrite Hj. apply pure_run_ret.
  - intros Hv. rewrite <- (strings_Join_Split plainPath) at 1 2.
    apply filepath_Clean_valid; done.
Qed.

End roundtrip.

Lemma toy_decrypts : decrypts toy_be toy_de.
Proof.
  intros n i e. simpl. unfold toy_encryptName, toy_DecryptName.
  destruct (String.eqb_spec n "") as [|Hn]; [discriminate|].
  destruct (has_slash n) eqn:Hs; [discriminate|].
  intros [= <-]. change ("E" +:+ n) with (String "E" n). cbv beta iota.
  change (Ascii.eqb "E" "E") with true.
  destruct (String.eqb_spec n ""); [done|]. by rewrite Hs.
Qed.

Lemma DecryptPathDirIV_inverts_walk_witness :
  (exists t,
     pure_run (DecryptPathDirIV toy_de toy_os "Ea/Eb" "/c" true)
       (Returned (filepath_Clean "a/b", None)) t) /\
  (Forall valid_name (strings_Split "a/b" "/") ->
   filepath_Clean "a/b" = "a/b").
Proof.
  apply (DecryptPathDirIV_inverts_walk toy_be toy_de toy_os toy_decrypts
           "a/b" "/c" world0
           (snd (EncryptPathDirIV toy_be toy_os "a/b" "/c" world0))).
  - exact toy_be_wf.
  - discriminate.
  - reflexivity.
  - reflexivity.
Defined.

(** ** What a walk of EncryptPathDirIV reads and stores *)

(** A successful walk reads exactly one [gocryptfs.diriv] per path
    element, the first one in rootDir, and does nothing else but log: no
    stat, no warning. *)
Theorem EncryptPathDirIV_walk_reads (be : NameTransform) (os : OS)
    (plainPath rootDir : string) (w0 w1 : World) (cipherPath : string) :
  plainPath <> "" ->
  lookup (DirIVCache w0) (filepath_Dir plainPath) = (false, [], "") ->
  EncryptPathDirIV be os plainPath rootDir w0
  = (Returned (cipherPath, None), w1) ->
  exists t,
    trace w1 = trace w0 ++ t /\
    length (files_read t) = length (strings_Split plainPath "/") /\
    files_read t !! 0%nat = Some (filepath_Join [rootDir; DirIVFilename]) /\
    Forall is_routine t.
Proof.
  intros Hne Hmiss Hrun. unfold EncryptPathDirIV in Hrun.
  destruct (String.eqb_spec plainPath "") as [|_]; [done|].
  unfold bind at 1 in Hrun. unfold get_DirIVCache at 1 in Hrun.
  rewrite Hmiss in Hrun. unfold bind at 1 in Hrun.
  destruct (walk_pure be os (strings_Split plainPath "/") (rootDir, [], []))
    as (o & t & Hp & Hhd & Hs).
  rewrite Hp in Hrun.
  destruct o as [[e|[[wd encs] lastIV]]|msg|code]; try done.
  injection Hrun as _ <-. simpl.
  destruct (Hs _ eq_refl) as [Hl Hr].
  exists t. repeat split; try done.
  apply Hhd, strings_Split_nonempty.
Qed.

Lemma EncryptPathDirIV_walk_reads_witness :
  exists t,
    trace (snd (EncryptPathDirIV toy_be toy_os "a/b" "/c" world0))
    = trace world0 ++ t /\
    length (files_read t) = length (strings_Split "a/b" "/") /\
    files_read t !! 0%nat = Some (filepath_Join ["/c"; DirIVFilename]) /\
    Forall is_routine t.
Proof.
  apply (EncryptPathDirIV_walk_reads toy_be toy_os "a/b" "/c" world0 _
           "Ea/Eb").
  - discriminate.
  - reflexivity.
  - reflexivity.
Defined.

(** A [ReadDirIV] that succeeded returns the content of the
    [gocryptfs.diriv] file of the directory, and that content has
    [dirIVLen] bytes. *)
Lemma ReadDirIV_returned (os : OS) (d : string) (w w' : World)
    (i : list byte) :
  ReadDirIV os d w = (Returned (i, None), w') ->
  ReadFile os (filepath_Join [d; DirIVFilename]) = (i, None) /\
  len i = dirIVLen.
Proof.
  unfold ReadDirIV.
  set (ivfile := filepath_Join [d; DirIVFilename]).
  unfold bind, Debug_Printf, Warn_Printf, emit, ret, lift. cbv beta iota.
  destruct (ReadFile os ivfile) as [data [e|]] eqn:Hread.
  - destruct (os_IsNotExist (Stat os d)); cbv beta iota;
      [discriminate|].
    destruct (Warn_PanicAfter os); discriminate.
  - destruct (len data =? dirIVLen) eqn:Hlen; cbv beta iota; simpl negb;
      cbv iota; [|discriminate].
    intros [= <- _]. split; [done|]. by apply Z.eqb_eq.
Qed.

(** What a completed walk has computed, whatever [encryptName] is: one
    encrypted name per element, the directory reached through them, and
    the IV it ends with, which is the content of the [gocryptfs.diriv]
    file of the directory reached through all names but the last and the
    IV under which the last name was encrypted. *)
Lemma walk_result (be : NameTransform) (os : OS) (plainNames : list string)
    (wd0 : string) (encs0 : list string) (iv0 : list byte) (w : World)
    (wd : string) (encs : list string) (i : list byte) (w' : World) :
  walk be os plainNames (wd0, encs0, iv0) w
  = (Returned (inr (wd, encs, i)), w') ->
  exists encsN,
    encs = encs0 ++ encsN /\
    length encsN = length plainNames /\
    wd = walked_dir wd0 encsN /\
    (plainNames <> [] ->
     ReadFile os
       (filepath_Join [walked_dir wd0 (removelast encsN); DirIVFilename])
     = (i, None) /\
     len i = dirIVLen /\
     encryptName be (List.last plainNames "") i
     = Returned (List.last encsN "")).
Proof.
  revert wd0 encs0 iv0 w.
  induction plainNames as [|n rest IH]; intros wd0 encs0 iv0 w.
  - intros [= <- <- <- <-]. exists []. by rewrite app_nil_r.
  - cbn [walk]. unfold bind.
    destruct (ReadDirIV os wd0 w) as [[[i1 [e|]]|msg|code] w1] eqn:Hrd;
      try done.
    unfold lift. destruct (encryptName be n i1) as [e1|msg|code] eqn:He1;
      try done.
    intros Hw. pose proof Hw as Hw'.
    apply IH in Hw as (encsN & -> & Hlen & Hwd & Hlast).
    exists (e1 :: encsN). rewrite <- app_assoc. split; [done|].
    split; [simpl; by rewrite Hlen|]. split; [done|].
    intros _. destruct rest as [|m rest].
    + destruct encsN; [|done]. simpl in Hw'.
      unfold ret in Hw'. injection Hw' as _ _ <- _.
      apply ReadDirIV_returned in Hrd as [Hfile Hlen16]. done.
    + destruct encsN as [|e2 encsN]; [done|].
      change (List.last (n :: m :: rest) "") with (List.last (m :: rest) "").
      change (List.last (e1 :: e2 :: encsN) "")
        with (List.last (e2 :: encsN) "").
      change (removelast (e1 :: e2 :: encsN))
        with (e1 :: removelast (e2 :: encsN)).
      by apply Hlast.
Qed.

(** The DirIVCache is written by a successful walk and by nothing else.
    After any call of [EncryptPathDirIV]: for the root path and on a
    cache hit the whole state is what it was; whenever the call does not
    return a cipherPath without error (error, panic), the cache is what
    it was; and when the call walked (non-root path, cache miss) and
    returned a cipherPath, the cache is the old one after
    [store (parent of plainPath) lastIV (parent of cipherPath)], where
    [lastIV] is the content, [dirIVLen] bytes long, of the
    [gocryptfs.diriv] file of the directory reached through all encrypted
    names but the last, and the IV under which the last name was
    encrypted; the next lookup of the parent hits with these values. *)
Theorem DirIVCache_written_only_by_walk (be : NameTransform) (os : OS)
    (plainPath rootDir : string) (w w' : World)
    (o : outcome (string * option error)) :
  EncryptPathDirIV be os plainPath rootDir w = (o, w') ->
  let found := fst (fst (lookup (DirIVCache w) (filepath_Dir plainPath))) in
  (plainPath = "" \/ found = true -> w' = w) /\
  ((forall cipherPath, o <> Returned (cipherPath, None)) ->
   DirIVCache w' = DirIVCache w) /\
  (forall cipherPath,
     plainPath <> "" -> found = false ->
     o = Returned (cipherPath, None) ->
     exists encs lastIV,
       cipherPath = strings_Join encs "/" /\
       length encs = length (strings_Split plainPath "/") /\
       ReadFile os
         (filepath_Join [walked_dir rootDir (removelast encs); DirIVFilename])
       = (lastIV, None) /\
       len lastIV = dirIVLen /\
       encryptName be (List.last (strings_Split plainPath "/") "") lastIV
       = Returned (List.last encs "") /\
       DirIVCache w'
       = store (DirIVCache w) (filepath_Dir plainPath) lastIV
           (filepath_Dir cipherPath) /\
       lookup (DirIVCache w') (filepath_Dir plainPath)
       = (true, lastIV, filepath_Dir cipherPath)).
Proof.
  intros Hrun found. split; [|split].
  - unfold EncryptPathDirIV in Hrun.
    destruct (String.eqb_spec plainPath "") as [|Hne].
    { intros _. by injection Hrun as _ <-. }
    intros [|Hfound]; [done|].
    unfold bind at 1, get_DirIVCache at 1 in Hrun. unfold found in Hfound.
    destruct (lookup (DirIVCache w) (filepath_Dir plainPath))
      as [[f i] cParentDir]. simpl in Hfound. subst f.
    unfold bind, lift, ret in Hrun.
    destruct (encryptName be _ i); by injection Hrun as _ <-.
  - intros Hno.
    by destruct (EncryptPathDirIV_error_frame _ _ _ _ _ _ _ Hrun Hno).
  - intros cipherPath Hne Hfound ->. unfold EncryptPathDirIV in Hrun.
    destruct (String.eqb_spec plainPath "") as [|_]; [done|].
    unfold bind at 1, get_DirIVCache at 1 in Hrun. unfold found in Hfound.
    destruct (lookup (DirIVCache w) (filepath_Dir plainPath))
      as [[f i] cParentDir]. simpl in Hfound. subst f.
    unfold bind at 1 in Hrun.
    pose proof (walk_cache be os (strings_Split plainPath "/")
                  (rootDir, [], i) w) as Hc.
    destruct (walk be os _ _ w) as [[[e|[[wd encs] i']]|msg|code] w1]
      eqn:Hwalk; simpl in Hc; try done.
    unfold bind, get_DirIVCache, set_DirIVCache, ret in Hrun.
    injection Hrun as <- <-.
    destruct (walk_result _ _ _ _ _ _ _ _ _ _ _ Hwalk)
      as (encsN & Hencs & Hlen & _ & Hlast).
    simpl in Hencs. subst encsN.
    destruct (Hlast (strings_Split_nonempty plainPath "/"))
      as (Hfile & Hlen16 & Henc).
    exists encs, i'. cbn [DirIVCache]. rewrite Hc.
    repeat (split; [done|]).
    rewrite lookup_store. by rewrite String.eqb_refl.
Qed.

Lemma DirIVCache_written_only_by_walk_witness :
  let r := EncryptPathDirIV toy_be toy_os "a/b" "/c" world0 in
  fst r = Returned ("Ea/Eb", None) /\
  exists encs lastIV,
    "Ea/Eb" = strings_Join encs "/" /\
    length encs = length (strings_Split "a/b" "/") /\
    ReadFile toy_os
      (filepath_Join [walked_dir "/c" (removelast encs); DirIVFilename])
    = (lastIV, None) /\
    len lastIV = dirIVLen /\
    encryptName toy_be (List.last (strings_Split "a/b" "/") "") lastIV
    = Returned (List.last encs "") /\
    DirIVCache (snd r)
    = store (DirIVCache world0) (filepath_Dir "a/b") lastIV
        (filepath_Dir "Ea/Eb") /\
    lookup (DirIVCache (snd r)) (filepath_Dir "a/b")
    = (true, lastIV, filepath_Dir "Ea/Eb").
Proof.
  intros r. split; [reflexivity|].
  destruct (DirIVCache_written_only_by_walk toy_be toy_os "a/b" "/c" world0
              (snd r) (fst r)) as (_ & _ & H).
  { unfold r. by destruct (EncryptPathDirIV _ _ _ _ _). }
  apply (H "Ea/Eb"); [discriminate|reflexivity|reflexivity].
Defined.

(** ** The cache entry belongs to the parent directory *)

Section siblings.

Variables (be : NameTransform) (os : OS).
Hypothesis Hwf : encryptName_wf be.

(** What a successful walk leaves behind, in terms of the elements of
    plainPath before the last one. *)
Lemma walk_entry (plainPath rootDir : string) (w0 w1 : World)
    (cipherPath : string) :
  plainPath <> "" ->
  lookup (DirIVCache w0) (filepath_Dir plainPath) = (false, [], "") ->
  EncryptPathDirIV be os plainPath rootDir w0
  = (Returned (cipherPath, None), w1) ->
  exists wdI encsI ivI tI lastIV tR e,
    pure_run (walk be os (removelast (strings_Split plainPath "/"))
                (rootDir, [], []))
      (Returned (inr (wdI, encsI, ivI))) tI /\
    pure_run (ReadDirIV os wdI) (Returned (lastIV, None)) tR /\
    encryptName be (filepath_Base plainPath) lastIV = Returned e /\
    Forall valid_name encsI /\ valid_name e /\
    cipherPath = strings_Join (encsI ++ [e]) "/" /\
    DirIVCache w1
    = store (DirIVCache w0) (filepath_Dir plainPath) lastIV
        (filepath_Dir cipherPath).
Proof.
  intros Hne Hmiss Hrun. unfold EncryptPathDirIV in Hrun.
  destruct (String.eqb_spec plainPath "") as [|_]; [done|].
  unfold bind at 1 in Hrun. unfold get_DirIVCache at 1 in Hrun.
  rewrite Hmiss in Hrun. unfold bind at 1 in Hrun.
  destruct (walk be os (strings_Split plainPath "/") (rootDir, [], []) w0)
    as [[[e|[[wd encs] lastIV]]|msg|code] wA] eqn:Hwalk; try done.
  pose proof (walk_cache be os (strings_Split plainPath "/")
                (rootDir, [], []) w0) as Hc.
  rewrite Hwalk in Hc. simpl in Hc.
  unfold bind, get_DirIVCache, set_DirIVCache, ret in Hrun.
  injection Hrun as <- <-. cbn [DirIVCache]. rewrite Hc.
  destruct (walk_completed be os _ _ _ _ _ _ _ _ _ Hwf Hwalk)
    as (encsN & Hencs & _ & Hvalid & Hnames & _).
  simpl in Hencs. subst encsN.
  pose proof (strings_Split_nonempty plainPath "/") as Hsplit.
  assert (Hbase : filepath_Base plainPath
                  = List.last (strings_Split plainPath "/") "").
  { apply filepath_Base_last.
    destruct (exists_last Hsplit) as (ns & n & Hs). rewrite Hs in *.
    rewrite last_last. apply Forall_app in Hnames as [_ Hn].
    by inversion Hn. }
  rewrite Hbase.
  rewrite (app_removelast_last "" Hsplit) in Hwalk at 1.
  set (init := removelast (strings_Split plainPath "/")) in *.
  set (l := List.last (strings_Split plainPath "/") "") in *.
  rewrite walk_app in Hwalk.
  destruct (walk_pure be os init (rootDir, [], [])) as (oI & tI & HpI & _).
  rewrite HpI in Hwalk.
  destruct oI as [[e|[[wdI encsI] ivI]]|msg|code]; try done.
  cbn [walk] in Hwalk. unfold bind at 1 in Hwalk.
  destruct (ReadDirIV_pure os wdI) as (oR & tR & HpR & _).
  rewrite HpR in Hwalk.
  destruct oR as [[i1 [e|]]|msg|code]; try done.
  unfold bind, lift, ret in Hwalk.
  destruct (encryptName be l i1) as [e1|msg|code] eqn:He1; try done.
  injection Hwalk as _ <- <- _.
  apply Forall_app in Hvalid as [HvI Hv1]. apply Forall_inv in Hv1.
  exists wdI, encsI, ivI, tI, i1, tR, e1. repeat (split; [done|]). done.
Qed.

(** Two plaintext paths with the same elements before the last one store
    the same cache entry, whatever the states their walks started
    from. *)
Theorem cache_entry_shared (p1 p2 rootDir : string) (w1 w1' w2 w2' : World)
    (c1 c2 : string) :
  p1 <> "" -> p2 <> "" ->
  removelast (strings_Split p1 "/") = removelast (strings_Split p2 "/") ->
  lookup (DirIVCache w1) (filepath_Dir p1) = (false, [], "") ->
  lookup (DirIVCache w2) (filepath_Dir p2) = (false, [], "") ->
  EncryptPathDirIV be os p1 rootDir w1 = (Returned (c1, None), w1') ->
  EncryptPathDirIV be os p2 rootDir w2 = (Returned (c2, None), w2') ->
  filepath_Dir p1 = filepath_Dir p2 /\
  filepath_Dir c1 = filepath_Dir c2 /\
  DirIVCache w1' = DirIVCache w2'.
Proof.
  intros Hn1 Hn2 Hinit Hm1 Hm2 Hr1 Hr2.
  destruct (walk_entry _ _ _ _ _ Hn1 Hm1 Hr1)
    as (wdI & encsI & ivI & tI & iv1 & tR & e1
        & HpI & HpR & _ & HvI & Hv1 & -> & ->).
  destruct (walk_entry _ _ _ _ _ Hn2 Hm2 Hr2)
    as (wdI' & encsI' & ivI' & tI' & iv2 & tR' & e2
        & HpI' & HpR' & _ & _ & Hv2 & -> & ->).
  rewrite <- Hinit in HpI'.
  destruct (pure_run_det _ _ _ _ _ HpI HpI') as [[= <- <- <-] _].
  destruct (pure_run_det _ _ _ _ _ HpR HpR') as [[= <-] _].
  assert (Hd : filepath_Dir p1 = filepath_Dir p2).
  { unfold filepath_Dir. by rewrite Hinit. }
  assert (Hc : filepath_Dir (strings_Join (encsI ++ [e1]) "/")
               = filepath_Dir (strings_Join (encsI ++ [e2]) "/")).
  { destruct encsI as [|x xs].
    - simpl. rewrite !filepath_Dir_name; [done|by apply valid_name_no_slash..].
    - by rewrite !filepath_Dir_valid. }
  split; [done|]. split; [done|]. unfold store. by rewrite Hd, Hc.
Qed.

(** The cache serves the whole directory: after a successful walk for
    [p1], a call for a path [p2] with the same elements before the last
    one takes the cache-hit branch, leaves the state as it is, and
    returns a path that cleans to the cipherPath that a walk for [p2]
    returns (the same string when there is an element before the last
    one). *)
Theorem sibling_cache_hit (p1 p2 rootDir : string) (w1 w1' w2 w2' : World)
    (c1 c2 : string) :
  p1 <> "" -> p2 <> "" ->
  removelast (strings_Split p1 "/") = removelast (strings_Split p2 "/") ->
  lookup (DirIVCache w1) (filepath_Dir p1) = (false, [], "") ->
  lookup (DirIVCache w2) (filepath_Dir p2) = (false, [], "") ->
  EncryptPathDirIV be os p1 rootDir w1 = (Returned (c1, None), w1') ->
  EncryptPathDirIV be os p2 rootDir w2 = (Returned (c2, None), w2') ->
  exists hitPath,
    (forall w, DirIVCache w = DirIVCache w1' ->
       EncryptPathDirIV be os p2 rootDir w = (Returned (hitPath, None), w)) /\
    filepath_Clean hitPath = c2 /\
    (removelast (strings_Split p2 "/") <> [] -> hitPath = c2).
Proof.
  intros Hn1 Hn2 Hinit Hm1 Hm2 Hr1 Hr2.
  destruct (walk_entry _ _ _ _ _ Hn1 Hm1 Hr1)
    as (wdI & encsI & ivI & tI & iv1 & tR & e1
        & HpI & HpR & _ & HvI & Hv1 & Hc1 & Hs1).
  destruct (walk_entry _ _ _ _ _ Hn2 Hm2 Hr2)
    as (wdI' & encsI' & ivI' & tI' & iv2 & tR' & e2
        & HpI' & HpR' & He2 & _ & Hv2 & Hc2 & _).
  rewrite <- Hinit in HpI'.
  destruct (pure_run_det _ _ _ _ _ HpI HpI') as [[= <- <- <-] _].
  destruct (pure_run_det _ _ _ _ _ HpR HpR') as [[= <-] _].
  assert (Hd : filepath_Dir p1 = filepath_Dir p2).
  { unfold filepath_Dir. by rewrite Hinit. }
  exists (filepath_Dir c1 +:+ "/" +:+ e2). split.
  { intros w Hw. unfold EncryptPathDirIV.
    destruct (String.eqb_spec p2 "") as [|_]; [done|].
    unfold bind at 1. unfold get_DirIVCache at 1. rewrite Hw, Hs1, Hd.
    rewrite lookup_store, String.eqb_refl.
    unfold bind, lift, ret. by rewrite He2. }
  subst c1 c2. destruct encsI as [|x xs].
  - simpl. rewrite filepath_Dir_name by (by apply valid_name_no_slash).
    split; [by apply filepath_Clean_dot_name|].
    intros Hinit'. exfalso. apply Hinit'. rewrite <- Hinit.
    specialize (HpI {| DirIVCache := dirIVCache_zero; trace := [] |}).
    destruct (removelast (strings_Split p1 "/")) as [|n ns]; [done|].
    exfalso. cbn [walk] in HpI. unfold bind at 1 in HpI.
    destruct (ReadDirIV os rootDir _) as [[[i [e|]]|msg|code] wx];
      try done.
    unfold bind at 1, lift at 1 in HpI.
    destruct (encryptName be n i) as [en|msg|code]; try done.
    destruct (walk_completed be os _ _ _ _ _ _ _ _ _ Hwf HpI)
      as (encsN & Hencs & _).
    by destruct encsN.
  - rewrite filepath_Dir_valid by done.
    rewrite (strings_Join_snoc (x :: xs) e2) by done.
    change ("/" +:+ e2) with (String "/" e2).
    rewrite <- strings_Join_snoc by done.
    split; [|done].
    apply filepath_Clean_valid; [done|].
    apply Forall_app. split; [done|by constructor].
Qed.

End siblings.

Lemma cache_entry_shared_witness :
  filepath_Dir "a/b" = filepath_Dir "a/x" /\
  filepath_Dir "Ea/Eb" = filepath_Dir "Ea/Ex" /\
  DirIVCache (snd (EncryptPathDirIV toy_be toy_os "a/b" "/c" world0))
  = DirIVCache (snd (EncryptPathDirIV toy_be toy_os "a/x" "/c" world0)).
Proof.
  apply (cache_entry_shared toy_be toy_os toy_be_wf "a/b" "a/x" "/c"
           world0 _ world0 _ "Ea/Eb" "Ea/Ex");
    try discriminate; reflexivity.
Defined.

Lemma sibling_cache_hit_witness :
  exists hitPath,
    (forall w,
       DirIVCache w
       = DirIVCache (snd (EncryptPathDirIV toy_be toy_os "a/b" "/c" world0)) ->
       EncryptPathDirIV toy_be toy_os "a/x" "/c" w
       = (Returned (hitPath, None), w)) /\
    filepath_Clean hitPath = "Ea/Ex" /\
    (removelast (strings_Split "a/x" "/") <> [] -> hitPath = "Ea/Ex").
Proof.
  apply (sibling_cache_hit toy_be toy_os toy_be_wf "a/b" "a/x" "/c"
           world0 _ world0
           (snd (EncryptPathDirIV toy_be toy_os "a/x" "/c" world0)) "Ea/Eb");
    try discriminate; reflexivity.
Defined.

(** ** WriteDirIV *)

(** A directory initialised by [WriteDirIV] passes [ReadDirIV]: on a file
    system where a successful write can be read back, and with a random
    source that returns as many bytes as it is asked for, a [WriteDirIV]
    that returns no error is followed by a [ReadDirIV] of the same
    directory that returns the 16 bytes written, without error. *)
Theorem WriteDirIV_then_ReadDirIV (fs : FileSystem)
    (RandBytes : Z -> outcome (list byte)) (d : string)
    (s s' : fs_state fs) (rnd : list byte) :
  write_then_read fs ->
  RandBytes dirIVLen = Returned rnd -> len rnd = dirIVLen ->
  WriteDirIV fs RandBytes d s = (Returned None, s') ->
  exists t, pure_run (ReadDirIV (fs_os fs s') d) (Returned (rnd, None)) t.
Proof.
  intros Hfs Hrnd Hlen. unfold WriteDirIV. rewrite Hrnd.
  destruct (fs_WriteFile fs _ rnd perm_0444 s) as [err s1] eqn:Hw.
  intros [= -> ->]. apply Hfs in Hw.
  exists [EvDebug ("ReadDirIV: reading %s" +:+ newline);
          EvReadFile (filepath_Join [d; DirIVFilename])].
  intros w. unfold ReadDirIV. rewrite Hw.
  destruct (Z.eqb_spec (len rnd) dirIVLen) as [_|]; [|done].
  unfold bind, Debug_Printf, emit, ret. simpl.
  by rewrite <- !app_assoc.
Qed.

Lemma mem_fs_write_then_read : write_then_read mem_fs.
Proof.
  intros name data perm s s'. simpl. intros [= <-].
  by rewrite lookup_insert_eq.
Qed.

Lemma WriteDirIV_then_ReadDirIV_witness :
  exists t,
    pure_run (ReadDirIV (mem_os (<["/c/Ea/gocryptfs.diriv" := iv_a]> ∅))
                "/c/Ea")
      (Returned (iv_a, None)) t.
Proof.
  apply (WriteDirIV_then_ReadDirIV mem_fs (fun _ => Returned iv_a) "/c/Ea"
           (∅ : gmap string (list byte)) _ iv_a).
  - exact mem_fs_write_then_read.
  - reflexivity.
  - reflexivity.
  - reflexivity.
Defined.

(** ** Mounting: flags, exit codes, deferred calls *)

(** The reconciliation of [initFuseFrontend] in closed form.  The naming
    flags come from the config file when there is one (the command line
    is then ignored) and from the command line otherwise; PlaintextNames
    wins over the two others, and EMENames switches DirIV on.  Cipherdir,
    Masterkey and OpenSSL are passed through. *)
Theorem frontendArgs_closed_form (key : list byte) (args : main.argContainer)
    (confFile : option main.ConfFile) :
  let flag := fun (f : main.featureFlag) (cli : bool) =>
    match confFile with
    | Some cf => main.IsFeatureFlagSet cf f
    | None => cli
    end in
  let pt := flag main.FlagPlaintextNames (main.plaintextnames args) in
  let dv := flag main.FlagDirIV (main.diriv args) in
  let em := flag main.FlagEMENames (main.emenames args) in
  main.initFuseFrontend_frontendArgs key args confFile
  = {| main.Cipherdir := main.cipherdir args;
       main.Masterkey := key;
       main.OpenSSL := main.openssl args;
       main.PlaintextNames := pt;
       main.DirIV := (dv || em) && negb pt;
       main.EMENames := em && negb pt;
       main.GCMIV128 := flag main.FlagGCMIV128 (main.gcmiv128 args) |}.
Proof.
  unfold main.initFuseFrontend_frontendArgs.
  destruct confFile as [cf|]; simpl.
  - destruct (main.IsFeatureFlagSet cf main.FlagEMENames),
             (main.IsFeatureFlagSet cf main.FlagPlaintextNames),
             (main.IsFeatureFlagSet cf main.FlagDirIV); reflexivity.
  - destruct (main.emenames args), (main.plaintextnames args),
             (main.diriv args); reflexivity.
Qed.

Section runs.

Import main.

Lemma rbind_returned {A B} (m : R A) (k : A -> R B) (b : B) :
  snd (rbind m k) = Returned b ->
  exists a, snd m = Returned a /\ snd (k a) = Returned b.
Proof.
  unfold rbind. destruct m as [t [a|msg|c]]; simpl; try done.
  intros H. exists a. split; [done|]. by destruct (k a).
Qed.

Lemma exits_within_rbind {A B} (P : Z -> Prop) (m : R A) (k : A -> R B) :
  exits_within P m ->
  (forall a, snd m = Returned a -> exits_within P (k a)) ->
  exits_within P (rbind m k).
Proof.
  intros Hm Hk code. unfold rbind.
  destruct m as [t [a|msg|c]]; simpl.
  - specialize (Hk a eq_refl code). destruct (k a) as [t' o]. exact Hk.
  - discriminate.
  - intros [= ->]. by apply Hm.
Qed.

Lemma exits_within_rret {A} (P : Z -> Prop) (a : A) :
  exits_within P (rret a).
Proof. intros code. discriminate. Qed.

Lemma exits_within_act (P : Z -> Prop) (a : action) :
  exits_within P (act a).
Proof. intros code. discriminate. Qed.

Lemma exits_within_exit {A} (P : Z -> Prop) (code : Z) :
  P code -> exits_within P (@os_Exit A code).
Proof. intros Hin c [= <-]. exact Hin. Qed.

Lemma exits_within_call {A} (P : Z -> Prop) (o : outcome A) :
  (forall code, o = Exited code -> P code) -> exits_within P (call o).
Proof. intros Hn code Ho. by apply Hn. Qed.

Lemma exits_within_when (P : Z -> Prop) (b : bool) (m : R unit) :
  exits_within P m -> exits_within P (when b m).
Proof. destruct b; [done|]. intros _. apply exits_within_rret. Qed.

Lemma exits_within_of_run {A} (P : Z -> Prop) (r : run A) :
  (forall code, snd r = Exited code -> P code) ->
  exits_within P (of_run r).
Proof. intros H code. exact (H code). Qed.

Lemma exits_within_mono {A} (P Q : Z -> Prop) (m : R A) :
  (forall code, P code -> Q code) -> exits_within P m -> exits_within Q m.
Proof. intros HPQ Hm code Hc. by apply HPQ, Hm. Qed.

(** [loadConfig] leaves the process with [ERREXIT_LOADCONF], unless
    [readPassword] leaves it. *)
Lemma loadConfig_exits (s : Sys) (args : argContainer) (code : Z) :
  snd (loadConfig s args) = Exited code ->
  code = ERREXIT_LOADCONF \/ readPassword s (extpass args) = Exited code.
Proof.
  unfold loadConfig.
  destruct (os_Stat s (config args)); [intros [= <-]; by left|].
  destruct (readPassword s (extpass args)) as [pw|msg|c]; simpl.
  - destruct (LoadConfFile s (config args) pw) as [[k cf] [e|]]; simpl;
      [intros [= <-]; by left|discriminate].
  - discriminate.
  - intros [= ->]. by right.
Qed.

Lemma main_getMasterKey_exits (s : Sys) (args : argContainer) (code : Z) :
  snd (main_getMasterKey s args) = Exited code ->
  code = ERREXIT_LOADCONF \/
  readPassword s (extpass args) = Exited code \/
  parseMasterKey s (masterkey args) = Exited code.
Proof.
  unfold main_getMasterKey.
  destruct (negb (String.eqb (masterkey args) "")).
  - destruct (parseMasterKey s (masterkey args)) as [k|msg|c]; simpl;
      try discriminate. intros [= ->]. by do 2 right.
  - destruct (zerokey args); [discriminate|].
    pose proof (loadConfig_exits s args code) as Hl.
    destruct (loadConfig s args) as [out [[k cf]|msg|c]]; simpl in *;
      try discriminate.
    intros Hc. destruct (Hl Hc) as [->|Hpw]; [by left|right; by left].
Qed.

Variable env : Env.

(** What the first part of [main] leaves of [args] to the helpers: the
    cipherdir is the first argument made absolute, [extpass] and
    [masterkey] are as given. *)
Lemma main_setup_helper_args (args args' : argContainer)
    (positional : list string) :
  snd (main_setup env args positional) = Returned args' ->
  extpass args' = extpass args /\ masterkey args' = masterkey args /\
  cipherdir args' = fst (filepath_Abs env (nth 0 positional "")).
Proof.
  unfold main_setup. intros H.
  do 4 apply rbind_returned in H as (? & _ & H).
  apply rbind_returned in H as (args1 & H1 & H).
  apply rbind_returned in H as (args2 & H2 & H).
  do 2 apply rbind_returned in H as (? & _ & H).
  injection H as <-.
  assert (E1 : args1 = with_cipherdir args
                         (fst (filepath_Abs env (nth 0 positional "")))).
  { destruct (len positional >=? 1); [|discriminate].
    destruct (checkDir env _); [discriminate|].
    by injection H1 as <-. }
  subst args1.
  assert (E2 : exists v, args2 = with_config (with_cipherdir args
                 (fst (filepath_Abs env (nth 0 positional "")))) v).
  { destruct (negb _).
    - destruct (filepath_Abs env (config _)) as [c err].
      apply rbind_returned in H2 as (? & _ & H2).
      apply rbind_returned in H2 as (? & _ & H2).
      injection H2 as <-. by eexists.
    - injection H2 as <-. by eexists. }
  destruct E2 as [v2 ->]. done.
Qed.

(** Steps of a proof that a run stays within the exit codes. *)
Ltac exits_step :=
  first
    [ apply exits_within_rret
    | apply exits_within_act
    | apply exits_within_exit; left; simpl; tauto
    | apply exits_within_when
    | apply exits_within_call; intros ? ?;
      first [discriminate | right; unfold helper_exits; tauto]
    | apply exits_within_rbind; [|intros ? _]
    | match goal with
      | |- exits_within _ (match ?x with _ => _ end) => destruct x
      | |- exits_within _ (if ?b then _ else _) => destruct b
      end ].

Lemma initDir_exits (args : argContainer) :
  exits_within (own_or_helper env args) (initDir env args).
Proof. unfold initDir. repeat exits_step. Qed.

Lemma changePassword_exits (args : argContainer) :
  exits_within (own_or_helper env args) (changePassword env args).
Proof.
  unfold changePassword.
  apply exits_within_rbind.
  { apply exits_within_of_run. intros code Hc.
    destruct (loadConfig_exits _ _ _ Hc) as [->|Hpw];
      [left; simpl; tauto|right; unfold helper_exits; tauto]. }
  intros [k cf] _. repeat exits_step.
Qed.

Lemma initFuseFrontend_exits (P : Z -> Prop) (key : list byte)
    (args : argContainer) (confFile : option ConfFile) :
  P ERREXIT_MOUNT ->
  exits_within P (initFuseFrontend env key args confFile).
Proof.
  intros HP. unfold initFuseFrontend.
  repeat first
    [ apply exits_within_rret
    | apply exits_within_act
    | apply exits_within_exit; exact HP
    | apply exits_within_rbind; [|intros ? _]
    | match goal with
      | |- exits_within _ (match ?x with _ => _ end) => destruct x
      end ].
Qed.

Lemma main_setup_exits (args : argContainer) (positional : list string) :
  exits_within
    (fun code => In code own_exit_codes \/
                 fork_exits env args positional code)
    (main_setup env args positional).
Proof.
  unfold main_setup.
  apply exits_within_rbind.
  { unfold when.
    destruct (foreground args) eqn:Hfg; simpl;
      [apply exits_within_rret|].
    destruct (len positional =? 2) eqn:Hn; [|apply exits_within_rret].
    apply exits_within_call. intros code Hc. right.
    split; [done|]. split; [by apply Z.eqb_eq|done]. }
  intros _ _. repeat exits_step.
Qed.

Lemma main_run_exits (args : argContainer) (positional : list string) :
  exits_within (own_or_helper env args) (main_run env args positional).
Proof.
  unfold main_run.
  repeat first
    [ apply initDir_exits
    | apply changePassword_exits
    | apply initFuseFrontend_exits; left; simpl; tauto
    | apply exits_within_of_run; intros code Hc;
      destruct (main_getMasterKey_exits _ _ _ Hc) as [->|[Hpw|Hmk]];
      [left; simpl; tauto
      |right; unfold helper_exits; simpl in *; tauto
      |right; unfold helper_exits; simpl in *; tauto]
    | exits_step ].
Qed.

(** Exit codes.  Whatever the arguments and the surroundings, when [main]
    leaves the process, then either with one of the codes 0, 1, 3, 6, 7,
    8 and 10 that main.go passes to [os.Exit] itself (never with
    [ERREXIT_PASSWORD]), or inside a helper that is not part of main.go:
    [forkChild], for a mount that does not stay in the foreground, or
    [readPasswordTwice] or [readPassword] on "-extpass",
    [parseMasterKey] on "-masterkey", [WriteDirIV] on the cipherdir, or
    [srv.Serve].  And when [forkChild] is called and leaves the process,
    as the source says it does, that is all that [main] does. *)
Theorem main_exit_codes (args : argContainer) (positional : list string) :
  (forall code,
     snd (main env args positional) = Exited code ->
     (In code own_exit_codes /\ code <> ERREXIT_PASSWORD) \/
     fork_exits env args positional code \/
     helper_exits env
       (with_cipherdir args (fst (filepath_Abs env (nth 0 positional ""))))
       code) /\
  (forall code,
     fork_exits env args positional code ->
     main env args positional = ([], Exited code)).
Proof.
  split.
  - set (args0 := with_cipherdir args
                    (fst (filepath_Abs env (nth 0 positional "")))).
    assert (H : exits_within
                  (fun code => In code own_exit_codes \/
                               fork_exits env args positional code \/
                               helper_exits env args0 code)
                  (main env args positional)).
    { unfold main. apply exits_within_rbind.
      - eapply exits_within_mono; [|apply main_setup_exits].
        intros code [Hin|Hfork]; [by left|right; by left].
      - intros args' Hset.
        destruct (main_setup_helper_args _ _ _ Hset) as (He & Hm & Hd).
        pose proof (main_run_exits args' positional) as Hr.
        intros code.
        destruct (main_run env args' positional) as [t [[]|msg|c]];
          simpl; try discriminate.
        intros [= <-]. destruct (Hr c eq_refl) as [Hin|Hh]; [by left|].
        do 2 right. unfold helper_exits in *. simpl.
        by rewrite <- He, <- Hm, <- Hd. }
    intros code Hc. destruct (H code Hc) as [Hin|Hother]; [left|by right].
    split; [done|]. intros ->. simpl in Hin. unfold ERREXIT_PASSWORD in Hin.
    intuition discriminate.
  - intros code (Hfg & Hn & Hfork). unfold main, main_setup.
    rewrite Hfg, Hn, Hfork. reflexivity.
Qed.

End runs.

Lemma main_exit_codes_witness :
  snd (main.main (env_of sys_hunter3) args_fg ["/c"; "/mnt"]) = Exited 8 /\
  ((In 8 own_exit_codes /\ 8 <> main.ERREXIT_PASSWORD) \/
   fork_exits (env_of sys_hunter3) args_fg ["/c"; "/mnt"] 8 \/
   helper_exits (env_of sys_hunter3)
     (main.with_cipherdir args_fg "/c") 8) /\
  fork_exits (env_of sys_hunter3) args_mount ["/c"; "/mnt"] 0 /\
  main.main (env_of sys_hunter3) args_mount ["/c"; "/mnt"] = ([], Exited 0).
Proof.
  destruct (main_exit_codes (env_of sys_hunter3) args_fg ["/c"; "/mnt"])
    as [Hcodes _].
  destruct (main_exit_codes (env_of sys_hunter3) args_mount ["/c"; "/mnt"])
    as [_ Hfork].
  assert (Hf : fork_exits (env_of sys_hunter3) args_mount ["/c"; "/mnt"] 0)
    by (repeat split).
  split; [reflexivity|]. split; [apply Hcodes; reflexivity|].
  split; [exact Hf|apply Hfork, Hf].
Defined.

Section more_runs.

Import main.

(** Without a positional argument [main] forks nothing and touches no
    file: it prints the version and exits with 0 when "-version" is
    given, and otherwise prints the usage text and exits with
    [ERREXIT_USAGE]. *)
Theorem main_without_arguments (env : Env) (args : argContainer) :
  main env args []
  = if version args then ([VersionText], Exited 0)
    else ((if debug args then [LogDebug "Debug output enabled"] else [])
          ++ (if wpanic args then [LogDebug "Panicing on warnings"] else [])
          ++ [UsageText],
          Exited ERREXIT_USAGE).
Proof.
  unfold main, main_setup. simpl.
  rewrite andb_false_r. simpl.
  destruct (version args); [reflexivity|].
  destruct (debug args), (wpanic args); reflexivity.
Qed.

(** [initDir] always ends the process.  When the password is read and the
    call of [WriteDirIV], if any, returns: the exit code is 0 if the
    cipher directory is empty, the config file is created and the diriv
    file, when one is due, is written, and [ERREXIT_INIT] otherwise.  The
    diriv file of the root is due exactly when "-diriv" is set and
    "-plaintextnames" is not; nothing is created in a cipher directory
    that is not empty. *)
Theorem initDir_outcome (env : Env) (args : argContainer) (pw : string)
    (werr : option error) :
  readPasswordTwice env (extpass args) = Returned pw ->
  call_WriteDirIV env (cipherdir args) = Returned werr ->
  let created :=
    CreateConfFile env (config args) pw (plaintextnames args) (scryptn args) in
  let due := diriv args && negb (plaintextnames args) in
  let r := initDir env args in
  (snd r = Exited 0 \/ snd r = Exited ERREXIT_INIT) /\
  (snd r = Exited 0 <->
   checkDirEmpty env (cipherdir args) = None /\ created = None /\
   (due = true -> werr = None)) /\
  (In (CallWriteDirIV (cipherdir args)) (fst r) <->
   checkDirEmpty env (cipherdir args) = None /\ created = None /\
   due = true) /\
  (checkDirEmpty env (cipherdir args) <> None ->
   fst r = match checkDirEmpty env (cipherdir args) with
           | Some err => [Printf_err ("Invalid cipherdir: %v" +:+ newline) err]
           | None => []
           end).
Proof.
  intros Hpw Hw created due r. unfold r, initDir, created, due.
  destruct (checkDirEmpty env (cipherdir args)) as [e|].
  { simpl. split; [by right|]. split; [split; [done|by intros [? _]]|].
    split; [|done]. split; [|by intros [? _]].
    intros [H|[]]. discriminate. }
  rewrite Hpw. cbn [rbind act call app].
  destruct (CreateConfFile env (config args) pw (plaintextnames args)
              (scryptn args)) as [e|].
  { simpl. split; [by right|]. split; [split; [done|by intros (_ & ? & _)]|].
    split; [|done]. split; [|by intros (_ & ? & _)].
    intros [H|[H|[H|[]]]]; discriminate. }
  destruct (diriv args && negb (plaintextnames args)).
  - rewrite Hw. destruct werr as [e|]; simpl.
    + split; [by right|]. split.
      * split; [done|]. intros (_ & _ & H). by specialize (H eq_refl).
      * split; [|done]. split; [done|]. intros _. tauto.
    + split; [by left|]. split; [done|]. split; [|done].
      split; [done|]. intros _. tauto.
  - simpl. split; [by left|]. split; [done|]. split; [|done].
    split; [|by intros (_ & _ & ?)].
    intros [H|[H|[H|[H|[]]]]]; discriminate.
Qed.

Lemma initDir_outcome_witness :
  let r := main.initDir (env_of sys_hunter3) args_mount in
  (snd r = Exited 0 \/ snd r = Exited main.ERREXIT_INIT) /\
  (snd r = Exited 0 <->
   @None error = None /\ @None error = None /\
   (true = true -> @None error = None)) /\
  (In (main.CallWriteDirIV "/c") (fst r) <->
   @None error = None /\ @None error = None /\ true = true) /\
  (@None error <> None -> fst r = []).
Proof.
  apply (initDir_outcome (env_of sys_hunter3) args_mount "hunter4" None);
    reflexivity.
Defined.

(** [changePassword] with a passphrase that does not unlock the config
    file exits with [ERREXIT_LOADCONF] before the new password is asked
    for: it does what [loadConfig] does and nothing more, so the key is
    not wrapped again and the config file is not written. *)
Theorem changePassword_wrong_password (env : Env) (args : argContainer)
    (pw : string) (key : list byte) (cf : option ConfFile) (e : error) :
  os_Stat (sys env) (config args) = None ->
  readPassword (sys env) (extpass args) = Returned pw ->
  LoadConfFile (sys env) (config args) pw = (key, cf, Some e) ->
  snd (changePassword env args) = Exited ERREXIT_LOADCONF /\
  all_actions not_rewrapping (changePassword env args) /\
  fst (changePassword env args) = map Out (fst (loadConfig (sys env) args)).
Proof.
  intros Hstat Hpw Hload. unfold changePassword, loadConfig, all_actions.
  rewrite Hstat, Hpw, Hload. simpl.
  by destruct (String.eqb (extpass args) "").
Qed.

Lemma changePassword_wrong_password_witness :
  snd (main.changePassword (env_of sys_hunter3) args_mount)
  = Exited main.ERREXIT_LOADCONF /\
  all_actions not_rewrapping
    (main.changePassword (env_of sys_hunter3) args_mount) /\
  fst (main.changePassword (env_of sys_hunter3) args_mount)
  = map main.Out (fst (main.loadConfig sys_hunter3 args_mount)).
Proof.
  apply (changePassword_wrong_password (env_of sys_hunter3) args_mount
           "hunter3" [] None
           (errorString "cipher: message authentication failed"));
    reflexivity.
Defined.

(** [changePassword] with the right passphrase wraps the master key that
    [loadConfig] returned under the new password, with the scrypt cost of
    the config file, writes the file once, and ends the process: with 0
    when the file was written and with [ERREXIT_INIT] when not. *)
Theorem changePassword_outcome (env : Env) (args : argContainer)
    (pw newPw : string) (key : list byte) (cf : ConfFile) :
  os_Stat (sys env) (config args) = None ->
  readPassword (sys env) (extpass args) = Returned pw ->
  LoadConfFile (sys env) (config args) pw = (key, Some cf, None) ->
  readPasswordTwice env (extpass args) = Returned newPw ->
  let cf' := ConfFile_EncryptKey env cf key newPw (ConfFile_LogN env cf) in
  snd (changePassword env args)
  = Exited (match ConfFile_WriteFile env cf' with
            | None => 0
            | Some _ => ERREXIT_INIT
            end) /\
  In (CallEncryptKey newPw (ConfFile_LogN env cf))
    (fst (changePassword env args)) /\
  length (List.filter is_conf_write (fst (changePassword env args)))
  = 1%nat.
Proof.
  intros Hstat Hpw Hload Htwice cf'. unfold changePassword, loadConfig.
  rewrite Hstat, Hpw, Hload. cbn [of_run rbind fst snd].
  rewrite Htwice. subst cf'.
  destruct (String.eqb (extpass args) ""); simpl;
    destruct (ConfFile_WriteFile env _) as [e|]; simpl;
    (split; [done|split; [tauto|done]]).
Qed.

Lemma changePassword_outcome_witness :
  snd (main.changePassword (env_of sys_hunter2) args_mount) = Exited 0 /\
  In (main.CallEncryptKey "hunter4" 16)
    (fst (main.changePassword (env_of sys_hunter2) args_mount)) /\
  length (List.filter is_conf_write
            (fst (main.changePassword (env_of sys_hunter2) args_mount)))
  = 1%nat.
Proof.
  apply (changePassword_outcome (env_of sys_hunter2) args_mount
           "hunter2" "hunter4" (replicate 32 x2a) conf_default);
    reflexivity.
Defined.

End more_runs.

Section actions.

Import main.

Lemma all_actions_rbind {A B} (P : action -> bool) (m : R A) (k : A -> R B) :
  all_actions P m -> (forall a, all_actions P (k a)) ->
  all_actions P (rbind m k).
Proof.
  unfold all_actions, rbind. intros Hm Hk.
  destruct m as [t [a|msg|c]]; simpl in *; try done.
  specialize (Hk a). destruct (k a) as [t' o]. simpl in *.
  rewrite forallb_app. by rewrite Hm, Hk.
Qed.

Lemma all_actions_rret {A} (P : action -> bool) (a : A) :
  all_actions P (rret a).
Proof. reflexivity. Qed.

Lemma all_actions_exit {A} (P : action -> bool) (code : Z) :
  all_actions P (@os_Exit A code).
Proof. reflexivity. Qed.

Lemma all_actions_call {A} (P : action -> bool) (o : outcome A) :
  all_actions P (call o).
Proof. reflexivity. Qed.

Lemma all_actions_act (P : action -> bool) (a : action) :
  P a = true -> all_actions P (act a).
Proof. intros H. unfold all_actions. simpl. by rewrite H. Qed.

Lemma all_actions_when (P : action -> bool) (b : bool) (m : R unit) :
  all_actions P m -> all_actions P (when b m).
Proof. by destruct b. Qed.

Lemma all_actions_of_run {A} (P : action -> bool) (r : run A) :
  (forall o, P (Out o) = true) -> all_actions P (of_run r).
Proof.
  intros H. unfold all_actions, of_run. simpl.
  induction (fst r) as [|o os IH]; [done|]. simpl. by rewrite H, IH.
Qed.

(** Steps of a proof that every action of a run satisfies a test. *)
Ltac actions_step :=
  first
    [ apply all_actions_rret
    | apply all_actions_exit
    | apply all_actions_call
    | apply all_actions_act; reflexivity
    | apply all_actions_of_run; intros ?; reflexivity
    | apply all_actions_when
    | apply all_actions_rbind; [|intros ?]
    | match goal with
      | |- all_actions _ (match ?x with _ => _ end) => destruct x
      | |- all_actions _ (if ?b then _ else _) => destruct b
      end ].

Lemma initDir_no_profile_end (env : Env) (args : argContainer) :
  all_actions not_profile_end (initDir env args).
Proof. unfold initDir. repeat actions_step. Qed.

Lemma changePassword_no_profile_end (env : Env) (args : argContainer) :
  all_actions not_profile_end (changePassword env args).
Proof. unfold changePassword. repeat actions_step. Qed.

Lemma main_setup_no_profile_end (env : Env) (args : argContainer)
    (positional : list string) :
  all_actions not_profile_end (main_setup env args positional).
Proof. unfold main_setup. repeat actions_step. Qed.

Lemma main_run_no_profile_end (env : Env) (args : argContainer)
    (positional : list string) :
  all_actions not_profile_end (main_run env args positional).
Proof.
  unfold main_run, initFuseFrontend.
  repeat first [ apply initDir_no_profile_end
               | apply changePassword_no_profile_end
               | actions_step ].
Qed.


(** The first part of [main] changes [cipherdir] and [config] only. *)
Lemma main_setup_args (env : Env) (args args' : argContainer)
    (positional : list string) :
  snd (main_setup env args positional) = Returned args' ->
  cpuprofile args' = cpuprofile args /\ memprofile args' = memprofile args /\
  init args' = init args /\ passwd args' = passwd args /\
  openssl args' = openssl args.
Proof.
  unfold main_setup. intros H.
  do 4 apply rbind_returned in H as (? & _ & H).
  apply rbind_returned in H as (args1 & H1 & H).
  apply rbind_returned in H as (args2 & H2 & H).
  do 2 apply rbind_returned in H as (? & _ & H).
  injection H as <-.
  assert (E1 : exists v, args1 = with_cipherdir args v).
  { destruct (len positional >=? 1); [|discriminate].
    destruct (checkDir env _); [discriminate|].
    injection H1 as <-. by eexists. }
  destruct E1 as [v1 ->].
  assert (E2 : exists v, args2 = with_config (with_cipherdir args v1) v).
  { destruct (negb _).
    - destruct (filepath_Abs env (config _)) as [c err].
      apply rbind_returned in H2 as (? & _ & H2).
      apply rbind_returned in H2 as (? & _ & H2).
      injection H2 as <-. by eexists.
    - injection H2 as <-. by eexists. }
  destruct E2 as [v2 ->]. done.
Qed.

(** Profiles are written on a graceful unmount only: in a run of [main]
    that ends in [os.Exit], neither the heap profile is written nor the
    CPU profile finished; in a run that returns, each profile that was
    asked for is completed. *)
Theorem main_profiles (env : Env) (args : argContainer)
    (positional : list string) :
  let r := main env args positional in
  (forall code, snd r = Exited code -> all_actions not_profile_end r) /\
  (snd r = Returned tt ->
   (cpuprofile args <> "" -> In CallStopCPUProfile (fst r)) /\
   (memprofile args <> "" ->
    In (CallWriteHeapProfile (memprofile args)) (fst r))).
Proof.
  intros r. unfold r, main.
  pose proof (main_setup_no_profile_end env args positional) as Hs.
  pose proof (fun a => main_setup_args env args a positional) as Ha.
  destruct (main_setup env args positional) as [t0 [args'|msg|c]];
    cbn [rbind]; [|by split..].
  specialize (Ha args' eq_refl) as (Hcpu & Hmem & _).
  pose proof (main_run_no_profile_end env args' positional) as Hr.
  destruct (main_run env args' positional) as [t1 [[]|msg|c]]; simpl.
  - split; [discriminate|]. intros _. unfold main_deferred.
    rewrite Hcpu, Hmem. split; intros Hne; rewrite !in_app_iff; right.
    + do 2 right. destruct (String.eqb_spec (cpuprofile args) ""); [done|].
      by left.
    + right; left. destruct (String.eqb_spec (memprofile args) ""); [done|].
      by left.
  - split; [discriminate|discriminate].
  - split; [|discriminate]. intros _ _. unfold all_actions in *. simpl in *.
    rewrite forallb_app. by rewrite Hs, Hr.
Qed.


End actions.

Lemma main_profiles_witness :
  let r := main.main (env_of sys_hunter2) args_profile ["/c"; "/mnt"] in
  snd r = Returned tt /\
  (forall code, snd r = Exited code -> all_actions not_profile_end r) /\
  (snd r = Returned tt ->
   (main.cpuprofile args_profile <> "" ->
    In main.CallStopCPUProfile (fst r)) /\
   (main.memprofile args_profile <> "" ->
    In (main.CallWriteHeapProfile (main.memprofile args_profile)) (fst r))).
Proof.
  split; [reflexivity|].
  apply (main_profiles (env_of sys_hunter2) args_profile ["/c"; "/mnt"]).
Defined.


(** ** Paths with an empty element *)

(** A plainPath with an empty element (a leading, trailing or doubled
    slash) is never encrypted by a walk: as [encryptName] does not return
    on the empty name, the call ends in an error or a panic, and the
    cache stays as it was. *)
Theorem EncryptPathDirIV_empty_element (be : NameTransform) (os : OS)
    (plainPath rootDir : string) (w w' : World)
    (o : outcome (string * option error)) :
  encryptName_wf be ->
  plainPath <> "" ->
  In "" (strings_Split plainPath "/") ->
  lookup (DirIVCache w) (filepath_Dir plainPath) = (false, [], "") ->
  EncryptPathDirIV be os plainPath rootDir w = (o, w') ->
  (forall cipherPath, o <> Returned (cipherPath, None)) /\
  DirIVCache w' = DirIVCache w.
Proof.
  intros Hwf Hne Hin Hmiss Hrun.
  assert (Hno : forall cipherPath, o <> Returned (cipherPath, None)).
  { intros cipherPath ->. unfold EncryptPathDirIV in Hrun.
    destruct (String.eqb_spec plainPath "") as [|_]; [done|].
    unfold bind at 1 in Hrun. unfold get_DirIVCache at 1 in Hrun.
    rewrite Hmiss in Hrun. unfold bind at 1 in Hrun.
    destruct (walk be os (strings_Split plainPath "/") (rootDir, [], []) w)
      as [[[e|[[wd encs] lastIV]]|msg|code] wA] eqn:Hwalk; try done.
    destruct (walk_completed be os _ _ _ _ _ _ _ _ _ Hwf Hwalk)
      as (_ & _ & _ & _ & Hnames & _).
    rewrite Forall_forall in Hnames.
    by apply (Hnames ""); [apply list_elem_of_In|]. }
  split; [done|].
  by destruct (EncryptPathDirIV_error_frame _ _ _ _ _ _ _ Hrun Hno).
Qed.

Lemma EncryptPathDirIV_empty_element_witness :
  (forall cipherPath,
     fst (EncryptPathDirIV toy_be toy_os "a//b" "/c" world0)
     <> Returned (cipherPath, None)) /\
  DirIVCache (snd (EncryptPathDirIV toy_be toy_os "a//b" "/c" world0))
  = DirIVCache world0.
Proof.
  apply (EncryptPathDirIV_empty_element toy_be toy_os "a//b" "/c" world0).
  - exact toy_be_wf.
  - discriminate.
  - simpl. tauto.
  - reflexivity.
  - by destruct (EncryptPathDirIV _ _ _ _ _).
Defined.
